(** * pgha: cluster membership registry and heartbeat coordinator

    A shallow embedding of [pgha.c] / [pgha.h].  The shared-memory control
    block [PgHaCtlData] is a record holding the counter [n_nodes] and the
    slot array [nodes]; the array has [pgha_max_nodes] slots (that is what
    [pgha_shmemsize] allocates), and it is modelled as a list of that length.

    A C function becomes a computation over the state of the calling
    process.  Besides returning, a call can leave by [ereport(ERROR, ...)]
    (a non-local exit), can block for ever on the light-weight lock the
    process already holds, or can touch memory outside the slot array.

    The last case is where the model stops and the program does not: the
    outcome [Fault s] records that the call has reached an access outside
    the slot array, or a [strcpy] past the end of a buffer, in state [s].
    What the program writes and returns after that point depends on memory
    this model does not describe.  Properties of calls and runs that
    complete are therefore stated for runs without [Fault]. *)

From stdpp Require Import base numbers list strings.
From Stdlib Require Import ZArith Ascii Sorted Lia.

Local Open Scope string_scope.
Local Open Scope list_scope.
Local Open Scope Z_scope.

(** ** C integers *)

Definition INT_MAX : Z := 2147483647.
Definition INT_MIN : Z := -2147483648.

(** The value of an [int] expression: two's complement wrap-around into
    the 32-bit range (PostgreSQL is built with [-fwrapv]). *)
Definition wrap_int (z : Z) : Z := (z - INT_MIN) mod 4294967296 + INT_MIN.

(** Buffer sizes of [pg_config_manual.h] / [pg_config.h]. *)
Definition NAMEDATALEN : Z := 64.
Definition MAXPGPATH : Z := 1024.

(** ** pgha.h *)

(** [struct PgHaNode].  The spinlock [mutex] is taken and released inside
    one loop iteration of [doHeartbeat] and carries no state between calls
    of a single process; it has no field here. *)
Record PgHaNode : Type := mkNode {
  name : string;
  conninfo : string;
  type : ascii;
  in_use : bool;
  myself : bool;
  live : bool;
  is_sync : bool;
  retry_count : Z
}.

(** [struct PgHaCtlData].  The member [lock] is a pointer fixed at start-up;
    the state of the lock it points to is process state (see [Backend]). *)
Record PgHaCtlData : Type := mkCtl {
  n_nodes : Z;
  nodes : list PgHaNode
}.

(** [pgha_max_nodes] is a postmaster-level setting: the capacity of the
    array that was allocated. *)
Definition pgha_max_nodes (c : PgHaCtlData) : Z := Z.of_nat (length (nodes c)).

(** [memset(p, 0, sizeof(PgHaNode))] *)
Definition zero_node : PgHaNode :=
  mkNode "" "" zero false false false false 0.

Definition set_in_use (b : bool) (n : PgHaNode) : PgHaNode :=
  mkNode (name n) (conninfo n) (type n) b (myself n) (live n) (is_sync n)
         (retry_count n).

Definition set_retry_count (r : Z) (n : PgHaNode) : PgHaNode :=
  mkNode (name n) (conninfo n) (type n) (in_use n) (myself n) (live n)
         (is_sync n) r.

(** ** Process state *)

Inductive LWLockMode : Type := LW_EXCLUSIVE | LW_SHARED.

(** Messages of [ereport(ERROR, ...)]. *)
Inductive ErrMsg : Type :=
| duplicate_node_name (nm : string)
| didnt_find_given_name_node (nm : string)
| join_node_only_on_master
| set_valued_function_in_wrong_context
| materialize_mode_required
| return_type_must_be_a_row_type
| hot_standby_must_be_enabled
| my_conninfo_must_be_specified
| node_name_must_be_specified
| failed_to_change_replication_mode
| failed_to_send_SIGHUP_to_postmaster
| lock_is_not_held.

(** Messages of [ereport(LOG, ...)] and [elog(WARNING, ...)]. *)
Inductive LogMsg : Type :=
| log_node (i : nat) (nm conn : string) (ty : ascii)
| log_entered_master_mode
| log_changes_replication_mode
| log_could_not_establish_connection (conn : string)
| log_could_not_get_tuple (conn : string).

(** The steps of one coordinator cycle, recorded where [PgHaMasterLoop]
    performs them. *)
Inductive Step : Type :=
| StShutdownCheck
| StReload
| StCount (n : Z)
| StSweep
| StEvaluate (healthy : bool)
| StActuate.

Section Pgha.

(** The world outside the process: remote servers, the postmaster, the
    configuration file, signals. *)
Context {World : Type}.

Record Backend : Type := mkBackend {
  PgHaCtl : PgHaCtlData;
  (* entries of this process for PgHaCtl->lock, most recent first *)
  held_lwlocks : list LWLockMode;
  InRecovery : bool;
  in_syncrep : bool;
  got_sighup : bool;
  got_sigterm : bool;
  EnableHotStandby : bool;
  pgha_keepalives_time : Z;
  pgha_retry_count : Z;
  pgha_node_name : option string;
  pgha_my_conninfo : option string;
  server_log : list LogMsg;
  steps : list Step;
  world : World
}.

Definition am_master (s : Backend) : bool := negb (InRecovery s).

Definition set_PgHaCtl (c : PgHaCtlData) (s : Backend) : Backend :=
  mkBackend c (held_lwlocks s) (InRecovery s) (in_syncrep s) (got_sighup s)
    (got_sigterm s) (EnableHotStandby s) (pgha_keepalives_time s)
    (pgha_retry_count s) (pgha_node_name s) (pgha_my_conninfo s)
    (server_log s) (steps s) (world s).

Definition set_held_lwlocks (h : list LWLockMode) (s : Backend) : Backend :=
  mkBackend (PgHaCtl s) h (InRecovery s) (in_syncrep s) (got_sighup s)
    (got_sigterm s) (EnableHotStandby s) (pgha_keepalives_time s)
    (pgha_retry_count s) (pgha_node_name s) (pgha_my_conninfo s)
    (server_log s) (steps s) (world s).

Definition set_got_sighup (b : bool) (s : Backend) : Backend :=
  mkBackend (PgHaCtl s) (held_lwlocks s) (InRecovery s) (in_syncrep s) b
    (got_sigterm s) (EnableHotStandby s) (pgha_keepalives_time s)
    (pgha_retry_count s) (pgha_node_name s) (pgha_my_conninfo s)
    (server_log s) (steps s) (world s).

Definition set_got_sigterm (b : bool) (s : Backend) : Backend :=
  mkBackend (PgHaCtl s) (held_lwlocks s) (InRecovery s) (in_syncrep s)
    (got_sighup s) b (EnableHotStandby s) (pgha_keepalives_time s)
    (pgha_retry_count s) (pgha_node_name s) (pgha_my_conninfo s)
    (server_log s) (steps s) (world s).

Definition set_sighup_gucs (k r : Z) (s : Backend) : Backend :=
  mkBackend (PgHaCtl s) (held_lwlocks s) (InRecovery s) (in_syncrep s)
    (got_sighup s) (got_sigterm s) (EnableHotStandby s) k r
    (pgha_node_name s) (pgha_my_conninfo s) (server_log s) (steps s)
    (world s).

Definition add_log (m : LogMsg) (s : Backend) : Backend :=
  mkBackend (PgHaCtl s) (held_lwlocks s) (InRecovery s) (in_syncrep s)
    (got_sighup s) (got_sigterm s) (EnableHotStandby s)
    (pgha_keepalives_time s) (pgha_retry_count s) (pgha_node_name s)
    (pgha_my_conninfo s) (server_log s ++ [m]) (steps s) (world s).

Definition add_step (t : Step) (s : Backend) : Backend :=
  mkBackend (PgHaCtl s) (held_lwlocks s) (InRecovery s) (in_syncrep s)
    (got_sighup s) (got_sigterm s) (EnableHotStandby s)
    (pgha_keepalives_time s) (pgha_retry_count s) (pgha_node_name s)
    (pgha_my_conninfo s) (server_log s) (steps s ++ [t]) (world s).

Definition set_world (w : World) (s : Backend) : Backend :=
  mkBackend (PgHaCtl s) (held_lwlocks s) (InRecovery s) (in_syncrep s)
    (got_sighup s) (got_sigterm s) (EnableHotStandby s)
    (pgha_keepalives_time s) (pgha_retry_count s) (pgha_node_name s)
    (pgha_my_conninfo s) (server_log s) (steps s) w.

(** ** Outcomes of a call *)

Inductive outcome (A : Type) : Type :=
| Returned (a : A) (s : Backend)      (* the function returned [a] *)
| Raised (e : ErrMsg) (s : Backend)   (* left through ereport(ERROR) *)
| Blocked (s : Backend)               (* waits for ever on its own lock *)
| Fault (s : Backend).                (* has reached, in state [s], an
                                         access outside the slot array or
                                         past the end of a char buffer;
                                         the model goes no further *)
Arguments Returned {A} a s.
Arguments Raised {A} e s.
Arguments Blocked {A} s.
Arguments Fault {A} s.

Definition M (A : Type) : Type := Backend -> outcome A.

Definition ret {A} (a : A) : M A := fun s => Returned a s.

Definition bind {A B} (m : M A) (k : A -> M B) : M B :=
  fun s =>
    match m s with
    | Returned a s' => k a s'
    | Raised e s' => Raised e s'
    | Blocked s' => Blocked s'
    | Fault s' => Fault s'
    end.

Definition ereport_ERROR {A} (e : ErrMsg) : M A := fun s => Raised e s.
Definition ereport_LOG (m : LogMsg) : M unit :=
  fun s => Returned tt (add_log m s).
Definition out_of_bounds {A} : M A := fun s => Fault s.
Definition gets {A} (f : Backend -> A) : M A := fun s => Returned (f s) s.
Definition modify (f : Backend -> Backend) : M unit :=
  fun s => Returned tt (f s).

(** The state in which a call ended, whatever the way it ended. *)
Definition final_state {A} (o : outcome A) : Backend :=
  match o with
  | Returned _ s | Raised _ s | Blocked s | Fault s => s
  end.

End Pgha.

Arguments Backend : clear implicits.
Arguments outcome : clear implicits.
Arguments M : clear implicits.
Arguments Returned {World A} a s.
Arguments Raised {World A} e s.
Arguments Blocked {World A} s.
Arguments Fault {World A} s.

Declare Scope pgha_scope.
Delimit Scope pgha_scope with pgha.
Notation "x <- m ;; k" := (bind m (fun x => k))
  (at level 100, m at next level, right associativity) : pgha_scope.
Notation "m ;; k" := (bind m (fun _ => k))
  (at level 100, right associativity) : pgha_scope.
Local Open Scope pgha_scope.

(** ** The registry lock

    [held_lwlocks] lists what this process holds on [PgHaCtl->lock].
    A light-weight lock is not re-entrant: asking for it again in a mode
    that conflicts with what the process itself holds never comes back. *)

Section Registry.

Context {World : Type}.
Abbreviation M := (M World).
Abbreviation Backend := (Backend World).

Definition is_shared (m : LWLockMode) : bool :=
  match m with LW_SHARED => true | LW_EXCLUSIVE => false end.

Definition LWLockAcquire (mode : LWLockMode) : M unit :=
  fun s =>
    match held_lwlocks s, mode with
    | [], _ => Returned tt (set_held_lwlocks [mode] s)
    | h, LW_SHARED =>
        if forallb is_shared h
        then Returned tt (set_held_lwlocks (LW_SHARED :: h) s)
        else Blocked s
    | _, LW_EXCLUSIVE => Blocked s
    end.

Definition LWLockRelease : M unit :=
  fun s =>
    match held_lwlocks s with
    | [] => Raised lock_is_not_held s
    | _ :: h => Returned tt (set_held_lwlocks h s)
    end.

(** Abort processing of the server after an ERROR: every light-weight
    lock of the process is dropped. *)
Definition LWLockReleaseAll (s : Backend) : Backend := set_held_lwlocks [] s.

(** ** Start-up *)

(** [pgha_shmem_startup]: [raw] is the segment as [ShmemInitStruct] hands
    it over; when it was not there before, the counter is cleared and every
    slot marked free, the other members of a slot are left as found. *)
Definition pgha_shmem_startup (found : bool) (raw : PgHaCtlData)
  : PgHaCtlData :=
  if found then raw else mkCtl 0 (map (set_in_use false) (nodes raw)).

(** ** Registry operations *)

(** The scan used by [addNode] and [delNode]:
    [for (i = 0; i < pgha_max_nodes; i++)] stopping at the first slot with
    [node->in_use && strcmp(node->name, name) == 0]. *)
Fixpoint find_node (nm : string) (l : list PgHaNode) (i : nat) : option nat :=
  match l with
  | [] => None
  | node :: rest =>
      if in_use node && String.eqb (name node) nm then Some i
      else find_node nm rest (S i)
  end.

(** [&PgHaCtl->nodes[n]]: the index and the present contents of the slot,
    or nothing when [n] is not an index of the array. *)
Definition slot_at (c : PgHaCtlData) (n : Z) : option (nat * PgHaNode) :=
  if n <? 0 then None
  else match nodes c !! Z.to_nat n with
       | Some nd => Some (Z.to_nat n, nd)
       | None => None
       end.

(** [strcpy] into a buffer of [size] bytes needs room for the string and
    its terminator. *)
Definition fits (size : Z) (str : string) : bool :=
  Z.of_nat (String.length str) <? size.

Fixpoint debug_show_from (i : nat) (l : list PgHaNode) : M unit :=
  match l with
  | [] => ret tt
  | n :: rest =>
      (if in_use n
       then ereport_LOG (log_node i (name n) (conninfo n) (type n))
       else ret tt) ;;
      debug_show_from (S i) rest
  end.

Definition debug_show : M unit :=
  LWLockAcquire LW_SHARED ;;
  c <- gets PgHaCtl ;;
  debug_show_from 0 (nodes c) ;;
  LWLockRelease.

(** [addNode].  The source takes [&PgHaCtl->nodes[PgHaCtl->n_nodes]] and
    copies the two strings into it with [strcpy]; it tests neither the
    index nor the lengths.  With the index outside the array, or a string
    longer than its buffer, the writes go to memory this model does not
    describe: the outcome is [Fault], carrying the state in which the call
    arrived at the slot, before the first copy.  The program itself goes
    on from there. *)
Definition addNode (nm conn : string) (self dup_ok : bool) : M bool :=
  LWLockAcquire LW_EXCLUSIVE ;;
  c <- gets PgHaCtl ;;
  (* Check uniques *)
  match find_node nm (nodes c) 0 with
  | Some _ =>
      if negb dup_ok
      then ereport_ERROR (duplicate_node_name nm)
      else ret true
  | None =>
      match slot_at c (n_nodes c) with
      | None => out_of_bounds
      | Some (i, old) =>
          if negb (fits NAMEDATALEN nm && fits MAXPGPATH conn)
          then out_of_bounds
          else
            master <- gets am_master ;;
            let new_node :=
              mkNode nm conn (if master then "m"%char else "s"%char)
                     true self (live old) false 0 in
            modify (set_PgHaCtl
                      (mkCtl (wrap_int (n_nodes c + 1))
                             (<[i := new_node]> (nodes c)))) ;;
            LWLockRelease ;;
            debug_show ;;
            ret true
      end
  end.

(** [delNode].  The tail move reads [PgHaCtl->nodes[PgHaCtl->n_nodes]]
    without testing the index.  With the index outside the array the
    [memcpy] reads, and the [memset] clears, memory this model does not
    describe: the outcome is [Fault], carrying the state in which the call
    arrived at the move.  The program itself goes on from there. *)
Definition delNode (nm : string) : M bool :=
  LWLockAcquire LW_EXCLUSIVE ;;
  c <- gets PgHaCtl ;;
  match find_node nm (nodes c) 0 with
  | None =>
      (* the release and the return that follow the report in the source
         are not reached *)
      ereport_ERROR (didnt_find_given_name_node nm)
  | Some i =>
      (* Move tail node to deleting node position *)
      match slot_at c (n_nodes c) with
      | None => out_of_bounds
      | Some (j, tail) =>
          modify (set_PgHaCtl
                    (mkCtl (wrap_int (n_nodes c - 1))
                           (<[j := zero_node]> (<[i := tail]> (nodes c))))) ;;
          LWLockRelease ;;
          debug_show ;;
          ret true
      end
  end.

Definition get_hanode_count : M Z :=
  LWLockAcquire LW_SHARED ;;
  count <- gets (fun s => n_nodes (PgHaCtl s)) ;;
  LWLockRelease ;;
  ret count.

(** SQL-callable wrappers. *)
Definition add_node (nm conn : string) : M bool := addNode nm conn false false.
Definition del_node (nm : string) : M bool := delNode nm.

(** ** Observations on a registry *)

(** Number of slots with [in_use == true]. *)
Definition in_use_count (c : PgHaCtlData) : Z :=
  Z.of_nat (length (filter (fun n => in_use n = true) (nodes c))).

(** Names of the in-use slots, in slot order. *)
Definition in_use_names (c : PgHaCtlData) : list string :=
  name <$> filter (fun n => in_use n = true) (nodes c).

(** A registry operation as data, to run sequences of them. *)
Inductive RegOp : Type :=
| OpInsert (nm conn : string) (self dup_ok : bool)
| OpRemove (nm : string).

Definition run_op (op : RegOp) : M bool :=
  match op with
  | OpInsert nm conn self dup_ok => addNode nm conn self dup_ok
  | OpRemove nm => delNode nm
  end.

(** Run the operations one after the other; an operation that leaves by
    an ERROR is followed by the server's abort processing and the sequence
    goes on; a blocked or faulting operation ends it. *)
Fixpoint run_ops (ops : list RegOp) (s : Backend) : outcome World unit :=
  match ops with
  | [] => Returned tt s
  | op :: rest =>
      match run_op op s with
      | Returned _ s' => run_ops rest s'
      | Raised _ s' => run_ops rest (LWLockReleaseAll s')
      | Blocked s' => Blocked s'
      | Fault s' => Fault s'
      end
  end.

End Registry.

(** ** The outside world: libpq, the latch, signals, the postmaster *)

Inductive ExecStatusType : Type :=
| PGRES_EMPTY_QUERY
| PGRES_COMMAND_OK
| PGRES_TUPLES_OK
| PGRES_BAD_RESPONSE
| PGRES_NONFATAL_ERROR
| PGRES_FATAL_ERROR.

Definition status_eqb (a b : ExecStatusType) : bool :=
  match a, b with
  | PGRES_EMPTY_QUERY, PGRES_EMPTY_QUERY
  | PGRES_COMMAND_OK, PGRES_COMMAND_OK
  | PGRES_TUPLES_OK, PGRES_TUPLES_OK
  | PGRES_BAD_RESPONSE, PGRES_BAD_RESPONSE
  | PGRES_NONFATAL_ERROR, PGRES_NONFATAL_ERROR
  | PGRES_FATAL_ERROR, PGRES_FATAL_ERROR => true
  | _, _ => false
  end.

(** What one return of [WaitLatch] brings: the postmaster-death bit of its
    result, and the signals whose handlers ran while the process slept. *)
Record Wake : Type := mkWake {
  wl_postmaster_death : bool;
  wake_sigterm : bool;
  wake_sighup : bool
}.

(** The functions the module calls and does not define.  Each one reads
    and advances the world. *)
Class PgEnv (World : Type) : Type := mkPgEnv {
  PGconn : Type;
  PGresult : Type;
  (* NULL or a connection object *)
  PQconnectdb : string -> World -> option PGconn * World;
  PQexec : PGconn -> string -> World -> PGresult * World;
  PQresultStatus : PGresult -> ExecStatusType;
  PQfinish : option PGconn -> World -> World;
  (* kill(PostmasterPid, SIGHUP) *)
  kill_postmaster_SIGHUP : World -> Z * World;
  (* ProcessConfigFile(PGC_SIGHUP): the new values of
     pgha.keepalives_time and pgha.retry_count *)
  ProcessConfigFile : World -> (Z * Z) * World;
  (* WaitLatch(&MyProc->procLatch, ..., timeout, PG_WAIT_EXTENSION) *)
  WaitLatch : Z -> World -> Wake * World;
  (* signals handled between two waits: (SIGTERM, SIGHUP) *)
  signals_between : World -> (bool * bool) * World
}.

Section Coordinator.

Context {World : Type} {env : PgEnv World}.
Abbreviation M := (M World).
Abbreviation Backend := (Backend World).

(** Run a function of the environment on the world of the process. *)
Definition call {A} (f : World -> A * World) : M A :=
  fun s => let '(a, w) := f (world s) in Returned a (set_world w s).

Definition call_ (f : World -> World) : M unit :=
  fun s => Returned tt (set_world (f (world s)) s).

Definition execSQL (conn sql : string) : M bool :=
  con <- call (PQconnectdb conn) ;;
  match con with
  | None =>
      ereport_LOG (log_could_not_establish_connection conn) ;;
      call_ (PQfinish None) ;;
      ret false
  | Some c =>
      res <- call (PQexec c sql) ;;
      if negb (status_eqb (PQresultStatus res) PGRES_TUPLES_OK)
         && negb (status_eqb (PQresultStatus res) PGRES_COMMAND_OK)
      then
        ereport_LOG (log_could_not_get_tuple conn) ;;
        call_ (PQfinish con) ;;
        ret false
      else
        call_ (PQfinish con) ;;
        ret true
  end.

(** [for (i = from; i < from + count; i++) body(i)] *)
Fixpoint for_loop (body : nat -> M unit) (from count : nat) : M unit :=
  match count with
  | O => ret tt
  | S k => body from ;; for_loop body (S from) k
  end.

(** In-place update of [PgHaCtl->nodes[i]]. *)
Definition update_node (i : nat) (f : PgHaNode -> PgHaNode) : M unit :=
  modify (fun s =>
            set_PgHaCtl (mkCtl (n_nodes (PgHaCtl s))
                               (alter f i (nodes (PgHaCtl s)))) s).

(** The first tests of the loop body of [doHeartbeat]: is the slot
    pinged at all? *)
Definition pinged (master : bool) (node : PgHaNode) : bool :=
  if negb (in_use node) || myself node then false
  else if negb master && Ascii.eqb (type node) "s" then false
  else if negb (in_use node) || myself node then false
  else true.

(** One iteration of the loop of [doHeartbeat]. *)
Definition heartbeat_slot (i : nat) : M unit :=
  c <- gets PgHaCtl ;;
  match nodes c !! i with
  | None => out_of_bounds
  | Some node =>
      master <- gets am_master ;;
      if negb (pinged master node) then ret tt
      else
        (* Send ping *)
        r <- execSQL (conninfo node) "SELECT 1" ;;
        if negb r
        then update_node i
               (fun n => set_retry_count (wrap_int (retry_count n + 1)) n)
        else update_node i (set_retry_count 0)
  end.

Definition doHeartbeat : M unit :=
  LWLockAcquire LW_SHARED ;;
  c <- gets PgHaCtl ;;
  for_loop heartbeat_slot 0 (Z.to_nat (pgha_max_nodes c)) ;;
  LWLockRelease.

Definition checkClusterStatus : M bool := ret true.

Definition changeToAsync : M unit :=
  ereport_LOG log_changes_replication_mode ;;
  my <- gets pgha_my_conninfo ;;
  match my with
  | None => out_of_bounds
  | Some conn =>
      ok <- execSQL conn "ALTER SYSTEM SET synchronous_standby_names TO ''" ;;
      (if negb ok then ereport_ERROR failed_to_change_replication_mode
       else ret tt) ;;
      r <- call kill_postmaster_SIGHUP ;;
      if negb (r =? 0) then ereport_ERROR failed_to_send_SIGHUP_to_postmaster
      else ret tt
  end.

(** ** join_node *)

(** What [join_node] inspects of its call: [fcinfo->resultinfo] and the
    declared result type. *)
Record CallInfo : Type := mkCallInfo {
  rsinfo_is_ReturnSetInfo : bool;
  allows_SFRM_Materialize : bool;
  has_expectedDesc : bool;
  result_is_composite : bool
}.

(** The rows put into the tuplestore: [values[0]], [values[1]] of every
    in-use slot, in slot order. *)
Definition member_rows (l : list PgHaNode) : list (string * string) :=
  (fun n => (name n, conninfo n)) <$> filter (fun n => in_use n = true) l.

Definition join_node (fcinfo : CallInfo) (nm conn : string)
  : M (list (string * string)) :=
  master <- gets am_master ;;
  (if negb master then ereport_ERROR join_node_only_on_master else ret tt) ;;
  (if negb (rsinfo_is_ReturnSetInfo fcinfo)
   then ereport_ERROR set_valued_function_in_wrong_context else ret tt) ;;
  (if negb (allows_SFRM_Materialize fcinfo) || negb (has_expectedDesc fcinfo)
   then ereport_ERROR materialize_mode_required else ret tt) ;;
  (if negb (result_is_composite fcinfo)
   then ereport_ERROR return_type_must_be_a_row_type else ret tt) ;;
  addNode nm conn false true ;;
  LWLockAcquire LW_SHARED ;;
  c <- gets PgHaCtl ;;
  LWLockRelease ;;
  ret (member_rows (nodes c)).

(** ** The coordinator *)

Definition pgha_sigterm : M unit := modify (set_got_sigterm true).
Definition pgha_sighup : M unit := modify (set_got_sighup true).

Definition run_handlers (term hup : bool) : M unit :=
  (if term then pgha_sigterm else ret tt) ;;
  (if hup then pgha_sighup else ret tt).

Definition step (t : Step) : M unit := modify (add_step t).

(** The body of the [while] loop of [PgHaMasterLoop], after its test:
    [Some r] when the function returns [r], [None] to go round again.
    The function called for the health evaluation is the argument
    [evaluate]; in the source it is [checkClusterStatus]. *)
Definition master_cycle_with (evaluate : M bool) : M (option bool) :=
  timeout <- gets (fun s => pgha_keepalives_time s * 1000) ;;
  w <- call (WaitLatch timeout) ;;
  run_handlers (wake_sigterm w) (wake_sighup w) ;;
  (* ResetLatch changes nothing this model keeps track of *)
  (* Emergency bailout if postmaster has died *)
  if wl_postmaster_death w then ret (Some false)
  else
    (* If got SIGHUP, reload the configuration file *)
    hup <- gets got_sighup ;;
    (if hup
     then
       step StReload ;;
       modify (set_got_sighup false) ;;
       g <- call ProcessConfigFile ;;
       modify (set_sighup_gucs (fst g) (snd g))
     else ret tt) ;;
    n <- get_hanode_count ;;
    step (StCount n) ;;
    (if 1 <? n
     then
       step StSweep ;;
       doHeartbeat ;;
       syn <- gets in_syncrep ;;
       if syn
       then
         healthy <- evaluate ;;
         step (StEvaluate healthy) ;;
         if negb healthy
         then step StActuate ;; changeToAsync
         else ret tt
       else ret tt
     else ret tt) ;;
    ret None.

(** [while (!got_sigterm) { ... }] run for at most [fuel] rounds; [None]
    when the loop is still running after them. *)
Fixpoint master_while_with (evaluate : M bool) (fuel : nat)
  : M (option bool) :=
  match fuel with
  | O => ret None
  | S k =>
      sg <- call signals_between ;;
      run_handlers (fst sg) (snd sg) ;;
      term <- gets got_sigterm ;;
      step StShutdownCheck ;;
      if term then ret (Some true)
      else
        r <- master_cycle_with evaluate ;;
        match r with
        | Some b => ret (Some b)
        | None => master_while_with evaluate k
        end
  end.

(** The loop and its body as the source has them. *)
Definition master_cycle : M (option bool) :=
  master_cycle_with checkClusterStatus.

Definition master_while (fuel : nat) : M (option bool) :=
  master_while_with checkClusterStatus fuel.

Definition PgHaMasterLoop (fuel : nat) : M (option bool) :=
  ereport_LOG log_entered_master_mode ;;
  master_while fuel.

Definition PgHaStandbyLoop : M bool := ret true.

Definition null_or_empty (g : option string) : bool :=
  match g with
  | None => true
  | Some str => String.eqb str ""
  end.

(** Check the mandatory parameteres *)
Definition checkParameter : M unit :=
  hs <- gets EnableHotStandby ;;
  (if negb hs then ereport_ERROR hot_standby_must_be_enabled else ret tt) ;;
  ci <- gets pgha_my_conninfo ;;
  (if null_or_empty ci then ereport_ERROR my_conninfo_must_be_specified
   else ret tt) ;;
  nn <- gets pgha_node_name ;;
  if null_or_empty nn then ereport_ERROR node_name_must_be_specified
  else ret tt.

(** [PgHaMain], from the sanity check to the value handed to
    [proc_exit]. *)
Definition PgHaMain (fuel : nat) : M (option bool) :=
  checkParameter ;;
  nn <- gets pgha_node_name ;;
  ci <- gets pgha_my_conninfo ;;
  (* Register my info first *)
  addNode (default "" nn) (default "" ci) true false ;;
  (* MyHa = &PgHaCtl->nodes[0] is not used by any function of the file *)
  master <- gets am_master ;;
  if master then PgHaMasterLoop fuel
  else r <- PgHaStandbyLoop ;; ret (Some r).

End Coordinator.

(** ** Settings: _PG_init and the check hooks *)

(** An integer setting as [DefineCustomIntVariable] declares it. *)
Record IntSetting : Type := mkIntSetting {
  guc_name : string;
  bootValue : Z;
  minValue : Z;
  maxValue : Z
}.

(** The three integer settings of [_PG_init]. *)
Definition guc_max_ha_nodes : IntSetting :=
  mkIntSetting "pgha.max_ha_nodes" 10 0 INT_MAX.
Definition guc_keepalives_time : IntSetting :=
  mkIntSetting "pgha.keepalives_time" 5 1 INT_MAX.
Definition guc_retry_count : IntSetting :=
  mkIntSetting "pgha.retry_count" 4 1 INT_MAX.

(** A value the server accepts for an integer setting. *)
Definition in_range (g : IntSetting) (v : Z) : bool :=
  (minValue g <=? v) && (v <=? maxValue g).

(** The text and the [%d] argument handed to [GUC_check_errmsg]. *)
Record CheckMsg : Type := mkCheckMsg {
  msg_text : string;
  msg_arg : Z
}.

(** [check_pgha_node_name]: [newval] is [*newval], [None] for NULL.  The
    result is the returned flag and the message left for the server. *)
Definition check_pgha_node_name (newval : option string)
  : bool * option CheckMsg :=
  match newval with
  | Some str =>
      if negb (String.eqb str "")
      then
        if NAMEDATALEN <=? Z.of_nat (String.length str)
        then (false,
              Some (mkCheckMsg "pgha.node_name must be lower than %d"
                               NAMEDATALEN))
        else (true, None)
      else (true, None)
  | None => (true, None)
  end.

(** [check_pgha_conninfo]: the test is against [NAMEDATALEN], the message
    quotes [MAXPGPATH]. *)
Definition check_pgha_conninfo (newval : option string)
  : bool * option CheckMsg :=
  match newval with
  | Some str =>
      if negb (String.eqb str "")
      then
        if NAMEDATALEN <=? Z.of_nat (String.length str)
        then (false,
              Some (mkCheckMsg "pgha.my_conninfo must be lower than %d"
                               MAXPGPATH))
        else (true, None)
      else (true, None)
  | None => (true, None)
  end.

(** ** A small concrete world, for running the model

    The world is the list of wake-ups still to come.  A server whose
    connection string is ["down"] refuses connections, one whose string is
    ["bad"] connects and fails the query, every other one answers. *)

Module Demo.

Definition World : Type := list Wake.

#[export] Instance env : PgEnv World := {|
  PGconn := string;
  PGresult := ExecStatusType;
  PQconnectdb conn w :=
    (if String.eqb conn "down" then None else Some conn, w);
  PQexec c sql w :=
    (if String.eqb c "bad" then PGRES_FATAL_ERROR else PGRES_TUPLES_OK, w);
  PQresultStatus r := r;
  PQfinish c w := w;
  kill_postmaster_SIGHUP w := (0, w);
  ProcessConfigFile w := ((5, 4), w);
  WaitLatch timeout w :=
    match w with
    | [] => (mkWake true false false, [])
    | x :: rest => (x, rest)
    end;
  signals_between w := ((false, false), w)
|}.

(** A primary with default settings, holding no lock. *)
Definition backend (c : PgHaCtlData) (w : World) : Backend World :=
  mkBackend c [] false false false false true 5 4 (Some "n0") (Some "c0")
            [] [] w.

(** A freshly initialised registry of [max] slots. *)
Definition empty_registry (max : nat) : PgHaCtlData :=
  pgha_shmem_startup false (mkCtl 7 (replicate max zero_node)).

Definition insert (nm : string) : RegOp :=
  OpInsert nm (String.append "host=" nm) false false.

Definition peer (nm conn : string) (ty : ascii) (failures : Z) : PgHaNode :=
  mkNode nm conn ty true false false false failures.

Definition self_node (nm : string) : PgHaNode :=
  mkNode nm "c0" "m" true true false false 0.

(** One registered node "a" and one free slot. *)
Definition one_node : Backend World :=
  backend (mkCtl 1 [peer "a" "host=a" "m" 0; zero_node]) [].

(** The local primary, a standby that answers and one that is down. *)
Definition three_nodes : Backend World :=
  backend (mkCtl 3 [self_node "n0"; peer "n1" "host=n1" "s" 3;
                    peer "n2" "down" "s" 2]) [].

Definition standby (s : Backend World) : Backend World :=
  mkBackend (PgHaCtl s) (held_lwlocks s) true (in_syncrep s) (got_sighup s)
    (got_sigterm s) (EnableHotStandby s) (pgha_keepalives_time s)
    (pgha_retry_count s) (pgha_node_name s) (pgha_my_conninfo s)
    (server_log s) (steps s) (world s).

Definition materialize_call : CallInfo := mkCallInfo true true true true.

(** One registered node "a" and two free slots. *)
Definition two_free : Backend World :=
  backend (mkCtl 1 [peer "a" "host=a" "m" 0; zero_node; zero_node]) [].

(** Two slots, both in use. *)
Definition full_two : Backend World :=
  backend (mkCtl 2 [peer "a" "host=a" "m" 0; peer "b" "host=b" "m" 0]) [].

(** Only the record of the process itself. *)
Definition only_self : Backend World :=
  backend (mkCtl 1 [self_node "n0"; zero_node]) [].

(** A worker whose node name was never set. *)
Definition unconfigured : Backend World :=
  mkBackend (mkCtl 0 [zero_node; zero_node]) [] false false false false
            true 5 4 None (Some "c0") [] [] [].

(** A primary with a shutdown request pending. *)
Definition stopping : Backend World := set_got_sigterm true one_node.

(** A call that offers no [ReturnSetInfo]. *)
Definition scalar_call : CallInfo := mkCallInfo false true true true.

(** [three_nodes] under synchronous replication, with one quiet wake-up
    ahead. *)
Definition syncrep_nodes : Backend World :=
  mkBackend (PgHaCtl three_nodes) [] false true false false true 5 4
            (Some "n0") (Some "c0") [] [] [mkWake false false false].

(** An evaluation that finds the cluster degraded. *)
Definition degraded : M World bool := fun s => Returned false s.

End Demo.

(** * Vocabulary of the properties *)

(** Position of a step in the cycle. *)
Definition rank (t : Step) : nat :=
  match t with
  | StShutdownCheck => 0
  | StReload => 1
  | StCount _ => 2
  | StSweep => 3
  | StEvaluate _ => 4
  | StActuate => 5
  end.

(** The steps recorded during one round of the loop of a process whose
    role and replication flag are [primary] and [syn]:
    - the round opens with the shutdown check;
    - the steps come in the order shutdown check, reload, count, sweep,
      evaluation, actuation, each at most once;
    - a sweep is preceded by a count above 1;
    - an evaluation is preceded by a sweep and needs a primary under
      synchronous replication;
    - an actuation is preceded by an evaluation that said "degraded";
    - after a count of 1 or less there is no sweep, evaluation or
      actuation. *)
Definition cycle_ok (primary syn : bool) (c : list Step) : Prop :=
  (exists rest, c = StShutdownCheck :: rest) /\
  StronglySorted (fun a b => (rank a < rank b)%nat) c /\
  (StSweep ∈ c -> exists n, (StCount n ∈ c) /\ 1 < n) /\
  (forall h, StEvaluate h ∈ c ->
             StSweep ∈ c /\ primary = true /\ syn = true) /\
  (StActuate ∈ c -> StEvaluate false ∈ c) /\
  (forall n, StCount n ∈ c -> n <= 1 ->
             (StSweep ∉ c) /\ (forall h, StEvaluate h ∉ c) /\
             StActuate ∉ c).

(** The steps of a run of the loop are a sequence of rounds. *)
Definition rounds (primary syn : bool) (c : list Step) : Prop :=
  exists cycles, c = concat cycles /\ Forall (cycle_ok primary syn) cycles.

Definition call_ok (fcinfo : CallInfo) : bool :=
  rsinfo_is_ReturnSetInfo fcinfo && allows_SFRM_Materialize fcinfo &&
  has_expectedDesc fcinfo && result_is_composite fcinfo.

Section Vocabulary.

Context {World : Type} {env : PgEnv World}.

(** Everything a ping leaves alone. *)
Definition untouched (s s' : Backend World) : Prop :=
  PgHaCtl s' = PgHaCtl s /\ held_lwlocks s' = held_lwlocks s /\
  InRecovery s' = InRecovery s /\ in_syncrep s' = in_syncrep s /\
  steps s' = steps s /\ pgha_my_conninfo s' = pgha_my_conninfo s /\
  got_sigterm s' = got_sigterm s /\ got_sighup s' = got_sighup s.

(** No two in-use slots carry the same name. *)
Definition names_unique (c : PgHaCtlData) : Prop :=
  forall i j a b,
    nodes c !! i = Some a -> nodes c !! j = Some b ->
    in_use a = true -> in_use b = true -> name a = name b -> i = j.

(** Calls that leave the control block alone. *)
Definition keeps_ctl {A} (m : M World A) : Prop :=
  forall s, PgHaCtl (final_state (m s)) = PgHaCtl s.

(** What the ping of a server answers when asked in state [s]. *)
Definition ping_answer (conn : string) (s : Backend World) : bool :=
  match execSQL conn "SELECT 1" s with
  | Returned r _ => r
  | _ => false
  end.

(** The state of the process when the sweep started in [s] arrives at
    slot [i]. *)
Definition sweep_reaches (s : Backend World) (i : nat) : Backend World :=
  final_state ((LWLockAcquire LW_SHARED ;; for_loop heartbeat_slot 0 i) s).

(** What one loop iteration makes of the slot it visits in state [s]. *)
Definition slot_after (s : Backend World) (nd : PgHaNode) : PgHaNode :=
  if pinged (am_master s) nd
  then set_retry_count
         (if ping_answer (conninfo nd) s then 0
          else wrap_int (retry_count nd + 1)) nd
  else nd.

(** Calls that record no step and leave the role and the replication
    flag alone, however they end. *)
Definition quiet {A} (m : M World A) : Prop :=
  forall s,
    steps (final_state (m s)) = steps s /\
    in_syncrep (final_state (m s)) = in_syncrep s /\
    InRecovery (final_state (m s)) = InRecovery s.

(** [emits primary syn m P]: started in a process of role [primary] under
    replication flag [syn], the call [m] appends to the recorded steps a
    list satisfying [P], however it ends, and leaves flag and role as they
    were. *)
Definition emits {A} (primary syn : bool) (m : M World A)
           (P : list Step -> Prop) : Prop :=
  forall s, am_master s = primary -> in_syncrep s = syn ->
    exists c,
      steps (final_state (m s)) = steps s ++ c /\
      am_master (final_state (m s)) = primary /\
      in_syncrep (final_state (m s)) = syn /\
      P c.

End Vocabulary.

Arguments quiet World {A} m.
Arguments emits World {A} primary syn m P.
Arguments keeps_ctl World {A} m.

(** The in-use slots are exactly the slots below the counter. *)
Definition compact (c : PgHaCtlData) : Prop :=
  0 <= n_nodes c <= pgha_max_nodes c /\
  forall i nd, nodes c !! i = Some nd ->
               (in_use nd = true <-> (Z.of_nat i < n_nodes c)).

(** The capacity is a value [pgha.max_ha_nodes] can take. *)
Definition capacity_ok (c : PgHaCtlData) : Prop :=
  in_range guc_max_ha_nodes (pgha_max_nodes c) = true.

(** Two control blocks that differ at most in the failure counters. *)
Definition same_members (c c' : PgHaCtlData) : Prop :=
  n_nodes c' = n_nodes c /\
  set_retry_count 0 <$> nodes c' = set_retry_count 0 <$> nodes c.

(** The lines [debug_show] writes for the slots of [l], the first of
    which has index [i]. *)
Definition is_node_line (l : list PgHaNode) (m : LogMsg) : Prop :=
  exists i nd, l !! i = Some nd /\ in_use nd = true /\
               m = log_node i (name nd) (conninfo nd) (type nd).

Definition is_insert (op : RegOp) : bool :=
  match op with
  | OpInsert _ _ _ _ => true
  | OpRemove _ => false
  end.

Section MoreVocabulary.

Context {World : Type}.

(** Two process states that differ at most in the control block, the
    lock entries and the server log. *)
Definition same_process (s s' : Backend World) : Prop :=
  InRecovery s' = InRecovery s /\ in_syncrep s' = in_syncrep s /\
  got_sighup s' = got_sighup s /\ got_sigterm s' = got_sigterm s /\
  EnableHotStandby s' = EnableHotStandby s /\
  pgha_keepalives_time s' = pgha_keepalives_time s /\
  pgha_retry_count s' = pgha_retry_count s /\
  pgha_node_name s' = pgha_node_name s /\
  pgha_my_conninfo s' = pgha_my_conninfo s /\
  steps s' = steps s /\ world s' = world s.

(** Calls that stay inside the registry: however they end, they have
    touched nothing but the control block, the lock and the log. *)
Definition registry_local {A} (m : M World A) : Prop :=
  forall s, same_process s (final_state (m s)).

(** Calls that, however they end, leave the counter and every member of
    every slot but the failure counter as they were. *)
Definition keeps_members {A} (m : M World A) : Prop :=
  forall s, same_members (PgHaCtl s) (PgHaCtl (final_state (m s))).

End MoreVocabulary.

Arguments registry_local World {A} m.
Arguments keeps_members World {A} m.

(** A call or a run that has not reached an access outside the slot
    array or past the end of a buffer. *)
Definition in_bounds {World A} (o : outcome World A) : Prop :=
  match o with
  | Fault _ => False
  | _ => True
  end.

Section CycleVocabulary.

Context {World : Type} {env : PgEnv World}.

(** An evaluation function that answers and changes nothing. *)
Definition reads_only (evaluate : M World bool) : Prop :=
  forall s, exists h, evaluate s = Returned h s.

(** The state at the test of the [while] loop: the handlers of the signals
    that arrived since the last wait have run and the check is recorded. *)
Definition at_test (s : Backend World) : Backend World :=
  let '(sg, wld) := signals_between (world s) in
  add_step StShutdownCheck
    (final_state (run_handlers (fst sg) (snd sg) (set_world wld s))).

(** What [WaitLatch] brought, and the state when it has returned and the
    handlers of the signals delivered meanwhile have run. *)
Definition woken (s : Backend World) : Wake * Backend World :=
  let '(w, wld) := WaitLatch (pgha_keepalives_time s * 1000) (world s) in
  (w, final_state (run_handlers (wake_sigterm w) (wake_sighup w)
                                (set_world wld s))).

(** The state after the reload handling: with a reload pending, the
    request is cleared and the settings are those of the configuration
    file; without one, nothing has changed. *)
Definition reloaded (s : Backend World) : Backend World :=
  if got_sighup s
  then
    let '(g, wld) := ProcessConfigFile (world s) in
    set_sighup_gucs (fst g) (snd g)
      (set_world wld (set_got_sighup false (add_step StReload s)))
  else s.

(** One iteration of the loop, started in [s], stage by stage.  Each
    stage is given the state the stage before it left.
    - The shutdown check comes first: with a request pending the loop
      returns [true] there.
    - Then the wait; on postmaster death the loop returns [false].
    - Then the reload handling.
    - Then the count, which is the counter of the registry.
    - With a count above 1 the sweep runs, on the state the reload
      handling left, and returns; only after it, and only under
      synchronous replication, the evaluation is asked; only when it
      answers "degraded" the actuation runs; then the next iteration
      starts.
    - With a count of 1 or less the next iteration starts right after
      the count. *)
Definition iteration_in_order (evaluate : M World bool) (fuel : nat)
           (s : Backend World) : Prop :=
  let s0 := at_test s in
  if got_sigterm s0
  then master_while_with evaluate (S fuel) s = Returned (Some true) s0
  else
    let '(w, s1) := woken s0 in
    if wl_postmaster_death w
    then master_while_with evaluate (S fuel) s = Returned (Some false) s1
    else
      let s2 := reloaded s1 in
      let n := n_nodes (PgHaCtl s) in
      let s3 := add_step (StCount n) s2 in
      held_lwlocks s2 = [] /\
      get_hanode_count s2 = Returned n s2 /\
      if 1 <? n
      then
        exists s4,
          doHeartbeat (add_step StSweep s3) = Returned tt s4 /\
          steps s4 = steps s3 ++ [StSweep] /\
          held_lwlocks s4 = [] /\
          if in_syncrep s
          then
            exists h,
              evaluate s4 = Returned h s4 /\
              master_while_with evaluate (S fuel) s =
                if h
                then master_while_with evaluate fuel
                       (add_step (StEvaluate true) s4)
                else (changeToAsync ;; master_while_with evaluate fuel)
                       (add_step StActuate (add_step (StEvaluate false) s4))
          else
            master_while_with evaluate (S fuel) s =
              master_while_with evaluate fuel s4
      else
        master_while_with evaluate (S fuel) s =
          master_while_with evaluate fuel s3.

End CycleVocabulary.

(** * Properties *)

(** ** The name scan *)

Section ScanFacts.

Lemma find_node_bounds nm l i j :
  find_node nm l i = Some j -> (i <= j < i + length l)%nat.
Proof.
  revert i. induction l as [|nd l IH]; intros i; simpl; [discriminate|].
  destruct (in_use nd && String.eqb (name nd) nm).
  - intros [= <-]. lia.
  - intros H. apply IH in H. lia.
Qed.

Lemma find_node_hit nm l i j :
  find_node nm l i = Some j ->
  exists nd, l !! (j - i)%nat = Some nd /\ in_use nd = true /\ name nd = nm.
Proof.
  revert i. induction l as [|nd l IH]; intros i; simpl; [discriminate|].
  destruct (in_use nd && String.eqb (name nd) nm) eqn:E.
  - intros [= <-]. apply andb_prop in E as [Hu Hn].
    apply String.eqb_eq in Hn. exists nd. rewrite Nat.sub_diag. auto.
  - intros H. pose proof (find_node_bounds _ _ _ _ H) as Hb.
    destruct (IH _ H) as (nd' & Hl & Hu & Hn). exists nd'.
    replace (j - i)%nat with (S (j - S i)) by lia. auto.
Qed.

Lemma find_node_present nm l i :
  (exists nd, nd ∈ l /\ in_use nd = true /\ name nd = nm) ->
  exists j, find_node nm l i = Some j.
Proof.
  revert i. induction l as [|nd l IH]; intros i (x & Hin & Hu & Hn).
  - inversion Hin.
  - simpl. destruct (in_use nd && String.eqb (name nd) nm) eqn:E; [eauto|].
    apply IH. exists x. split; [|auto].
    apply elem_of_cons in Hin as [->|Hin]; [|exact Hin].
    rewrite Hu, <- Hn, String.eqb_refl in E. discriminate.
Qed.

Lemma find_node_absent nm l i :
  (forall nd, nd ∈ l -> in_use nd = true -> name nd <> nm) ->
  find_node nm l i = None.
Proof.
  intros H. destruct (find_node nm l i) as [j|] eqn:E; [|reflexivity].
  destruct (find_node_hit _ _ _ _ E) as (nd & Hl & Hu & Hn).
  exfalso. apply (H nd); auto. eapply list_elem_of_lookup_2; eauto.
Qed.

End ScanFacts.

Section RegistryFacts.

Context {World : Type}.
Implicit Types s : Backend World.

Lemma release_all_acquired s m :
  held_lwlocks s = [] -> LWLockReleaseAll (set_held_lwlocks [m] s) = s.
Proof. destruct s; simpl; intros ->; reflexivity. Qed.

(** C4: an insert whose name is already carried by an in-use slot, with
    [dup_ok] false, leaves through the "duplicate node name" ERROR; the
    control block (counter and every slot) is as before, and once the
    server's abort processing has dropped the lock the whole process state
    is the state before the call. *)
Theorem addNode_duplicate_rejected s nm conn self :
  held_lwlocks s = [] ->
  (exists nd, nd ∈ nodes (PgHaCtl s) /\ in_use nd = true /\ name nd = nm) ->
  exists s',
    addNode nm conn self false s = Raised (duplicate_node_name nm) s' /\
    PgHaCtl s' = PgHaCtl s /\
    n_nodes (PgHaCtl s') = n_nodes (PgHaCtl s) /\
    nodes (PgHaCtl s') = nodes (PgHaCtl s) /\
    LWLockReleaseAll s' = s.
Proof.
  intros Hfree Hdup.
  destruct (find_node_present nm _ 0%nat Hdup) as [j Hj].
  exists (set_held_lwlocks [LW_EXCLUSIVE] s).
  unfold addNode, bind, LWLockAcquire, gets. rewrite Hfree. simpl.
  rewrite Hj. simpl. unfold ereport_ERROR.
  repeat split. by apply release_all_acquired.
Qed.

(** C5: the same insert with [dup_ok] true returns [true] and the control
    block (counter and every slot) is identical to what it was. *)
Theorem addNode_duplicate_tolerated s nm conn self :
  held_lwlocks s = [] ->
  (exists nd, nd ∈ nodes (PgHaCtl s) /\ in_use nd = true /\ name nd = nm) ->
  exists s',
    addNode nm conn self true s = Returned true s' /\
    PgHaCtl s' = PgHaCtl s.
Proof.
  intros Hfree Hdup.
  destruct (find_node_present nm _ 0%nat Hdup) as [j Hj].
  exists (set_held_lwlocks [LW_EXCLUSIVE] s).
  unfold addNode, bind, LWLockAcquire, gets. rewrite Hfree. simpl.
  rewrite Hj. simpl. split; reflexivity.
Qed.

Lemma get_hanode_count_free s :
  held_lwlocks s = [] ->
  get_hanode_count s = Returned (n_nodes (PgHaCtl s)) s.
Proof.
  intros Hfree. unfold get_hanode_count, bind, LWLockAcquire, gets.
  rewrite Hfree. simpl. unfold ret. f_equal.
  destruct s; simpl in *; subst; reflexivity.
Qed.

(** C6: removing a name that no in-use slot carries leaves through the
    "didn't find given name node" ERROR; the control block is as before,
    and [get_hanode_count] gives the same number after the failed call
    (and the server's abort processing) as before it. *)
Theorem delNode_absent_rejected s nm :
  held_lwlocks s = [] ->
  (forall nd, nd ∈ nodes (PgHaCtl s) -> in_use nd = true -> name nd <> nm) ->
  exists s',
    delNode nm s = Raised (didnt_find_given_name_node nm) s' /\
    PgHaCtl s' = PgHaCtl s /\
    LWLockReleaseAll s' = s /\
    get_hanode_count (LWLockReleaseAll s') =
      Returned (n_nodes (PgHaCtl s)) (LWLockReleaseAll s') /\
    get_hanode_count s = Returned (n_nodes (PgHaCtl s)) s.
Proof.
  intros Hfree Habs.
  pose proof (find_node_absent nm _ 0%nat Habs) as Hnone.
  exists (set_held_lwlocks [LW_EXCLUSIVE] s).
  assert (Hrel : LWLockReleaseAll (set_held_lwlocks [LW_EXCLUSIVE] s) = s)
    by by apply release_all_acquired.
  unfold delNode, bind, LWLockAcquire, gets. rewrite Hfree. simpl.
  rewrite Hnone. unfold ereport_ERROR.
  split; [reflexivity|]. split; [reflexivity|]. split; [exact Hrel|].
  rewrite Hrel. split; by apply get_hanode_count_free.
Qed.

(** With the counter at the capacity, the insert of a fresh name reaches
    [&PgHaCtl->nodes[pgha_max_nodes]]: no ERROR is raised. *)
Lemma addNode_full_faults s nm conn self dup_ok :
  held_lwlocks s = [] ->
  find_node nm (nodes (PgHaCtl s)) 0 = None ->
  n_nodes (PgHaCtl s) = pgha_max_nodes (PgHaCtl s) ->
  addNode nm conn self dup_ok s = Fault (set_held_lwlocks [LW_EXCLUSIVE] s).
Proof.
  intros Hfree Hnone Hfull.
  unfold addNode, bind, LWLockAcquire, gets. rewrite Hfree. simpl.
  rewrite Hnone. unfold slot_at. rewrite Hfull. unfold pgha_max_nodes.
  destruct (Z.of_nat (length (nodes (PgHaCtl s))) <? 0) eqn:E; [reflexivity|].
  rewrite Nat2Z.id, lookup_ge_None_2 by lia. reflexivity.
Qed.

(** The duplicate-tolerant insert of a registered name comes back with the
    exclusive lock held. *)
Lemma addNode_tolerated_holds_lock s nm conn self :
  held_lwlocks s = [] ->
  (exists nd, nd ∈ nodes (PgHaCtl s) /\ in_use nd = true /\ name nd = nm) ->
  addNode nm conn self true s
    = Returned true (set_held_lwlocks [LW_EXCLUSIVE] s).
Proof.
  intros Hfree Hdup.
  destruct (find_node_present nm _ 0%nat Hdup) as [j Hj].
  unfold addNode, bind, LWLockAcquire, gets. rewrite Hfree. simpl.
  rewrite Hj. reflexivity.
Qed.

End RegistryFacts.

(** ** Runs that show where the code leaves the specification *)

Section Divergences.

Import Demo.

(** C1: with three slots, insert "a", insert "b", remove "a", insert "c".
    The removal copies the free slot at index [n_nodes] over "a" and lowers
    the counter to 1, so the next insert is written over the live record
    "b" in slot 1: the counter says 2 while one slot is in use, and "b" is
    lost. *)
Theorem registry_count_diverges :
  exists s',
    run_ops [insert "a"; insert "b"; OpRemove "a"; insert "c"]
            (backend (empty_registry 3) []) = Returned tt s' /\
    n_nodes (PgHaCtl s') = 2 /\
    in_use_count (PgHaCtl s') = 1 /\
    in_use_names (PgHaCtl s') = ["c"].
Proof.
  eexists. split; [vm_compute; reflexivity|]. vm_compute. repeat split.
Qed.

(** C7: with two slots and two successful inserts the counter equals the
    capacity; the insert of a third, fresh name does not leave through an
    ERROR, it addresses the slot past the end of the array. *)
Theorem insert_beyond_capacity_faults :
  exists s1 s2,
    run_ops [insert "a"; insert "b"] (backend (empty_registry 2) [])
      = Returned tt s1 /\
    n_nodes (PgHaCtl s1) = pgha_max_nodes (PgHaCtl s1) /\
    held_lwlocks s1 = [] /\
    addNode "c" "host=c" false false s1 = Fault s2.
Proof.
  do 2 eexists. split; [vm_compute; reflexivity|].
  do 2 (split; [vm_compute; reflexivity|]). vm_compute. reflexivity.
Qed.

(** C9: a duplicate-tolerant insert of a name that is already registered
    returns [true] with the exclusive lock still held by the process; the
    next request for the lock by the same process, here the one made by
    [get_hanode_count], never comes back. *)
Theorem tolerated_duplicate_keeps_lock :
  exists s1 s2,
    run_ops [insert "a"] (backend (empty_registry 2) []) = Returned tt s1 /\
    held_lwlocks s1 = [] /\
    addNode "a" "host=a" false true s1 = Returned true s2 /\
    held_lwlocks s2 = [LW_EXCLUSIVE] /\
    get_hanode_count s2 = Blocked s2.
Proof.
  do 2 eexists. split; [vm_compute; reflexivity|].
  split; [vm_compute; reflexivity|].
  split; [vm_compute; reflexivity|]. vm_compute. split; reflexivity.
Qed.

(** C2: a primary under synchronous replication with retry threshold 4
    and a standby whose counter stands at 5: [checkClusterStatus] answers
    [true] (healthy). *)
Theorem checkClusterStatus_ignores_counters :
  let c := mkCtl 2 [self_node "n0"; peer "n1" "down" "s" 5] in
  let s := mkBackend c [] false true false false true 5 4
                     (Some "n0") (Some "c0") [] [] ([] : World) in
  pgha_retry_count s = 4 /\
  (exists nd, nd ∈ nodes (PgHaCtl s) /\ in_use nd = true /\
              myself nd = false /\ pgha_retry_count s < retry_count nd) /\
  checkClusterStatus s = Returned true s.
Proof.
  simpl. split; [reflexivity|]. split; [|reflexivity].
  exists (peer "n1" "down" "s" 5). split; [|repeat split].
  apply elem_of_cons. right. apply elem_of_cons. by left.
Qed.

(** The evaluation never reports a degraded cluster. *)
Lemma checkClusterStatus_always_healthy (s : Backend World) :
  checkClusterStatus s = Returned true s.
Proof. reflexivity. Qed.

End Divergences.

(** ** The heartbeat sweep *)

Section HeartbeatFacts.

Context {World : Type} {env : PgEnv World}.
Implicit Types s : Backend World.

Lemma execSQL_returns conn sql s :
  exists r s', execSQL conn sql s = Returned r s' /\ untouched s s'.
Proof.
  unfold execSQL, bind, call, call_, ereport_LOG, ret, untouched.
  destruct (PQconnectdb conn (world s)) as [[c|] w]; simpl.
  - destruct (PQexec c sql w) as [res w']; simpl.
    destruct (negb _ && negb _); simpl; do 2 eexists; split;
      try reflexivity; simpl; repeat split.
  - do 2 eexists; split; [reflexivity|]. simpl. repeat split.
Qed.

Lemma wrap_int_succ r :
  INT_MIN <= r < INT_MAX -> wrap_int (r + 1) = r + 1.
Proof.
  unfold wrap_int, INT_MIN, INT_MAX. intros H.
  rewrite Z.mod_small; lia.
Qed.

Lemma heartbeat_slot_spec i s nd :
  nodes (PgHaCtl s) !! i = Some nd ->
  exists s',
    heartbeat_slot i s = Returned tt s' /\
    held_lwlocks s' = held_lwlocks s /\
    InRecovery s' = InRecovery s /\
    n_nodes (PgHaCtl s') = n_nodes (PgHaCtl s) /\
    nodes (PgHaCtl s') = <[i := slot_after s nd]> (nodes (PgHaCtl s)).
Proof.
  intros Hi. unfold heartbeat_slot, bind, gets. rewrite Hi.
  unfold slot_after, ping_answer.
  destruct (pinged (am_master s) nd); simpl.
  - destruct (execSQL_returns (conninfo nd) "SELECT 1" s)
      as (r & s1 & -> & Hctl & Hheld & Hrec & _).
    assert (Hi1 : nodes (PgHaCtl s1) !! i = Some nd) by (by rewrite Hctl).
    destruct r; simpl; unfold update_node, modify; eexists;
      (split; [reflexivity|]); simpl; rewrite Hctl;
      repeat split; auto;
      apply list_eq; intros j; destruct (decide (i = j)) as [->|Hne];
      rewrite ?list_lookup_alter_eq, ?list_lookup_alter_ne by done;
      rewrite ?list_lookup_insert_ne by done; try reflexivity;
      rewrite list_lookup_insert_eq by (by eapply lookup_lt_Some);
      rewrite Hi; reflexivity.
  - exists s. unfold ret. repeat split.
    symmetry. by apply list_insert_id.
Qed.

Lemma for_loop_heartbeat count : forall from s,
  (from + count <= length (nodes (PgHaCtl s)))%nat ->
  exists s',
    for_loop heartbeat_slot from count s = Returned tt s' /\
    held_lwlocks s' = held_lwlocks s /\
    InRecovery s' = InRecovery s /\
    n_nodes (PgHaCtl s') = n_nodes (PgHaCtl s) /\
    length (nodes (PgHaCtl s')) = length (nodes (PgHaCtl s)) /\
    forall j nd, nodes (PgHaCtl s) !! j = Some nd ->
      nodes (PgHaCtl s') !! j = Some
        (if decide (from <= j < from + count)%nat
         then slot_after
                (final_state (for_loop heartbeat_slot from (j - from) s)) nd
         else nd).
Proof.
  induction count as [|k IH]; intros from s Hlen.
  - exists s. simpl. unfold ret. repeat split.
    intros j nd Hj. rewrite decide_False by lia. exact Hj.
  - destruct (lookup_lt_is_Some_2 (nodes (PgHaCtl s)) from) as [nd0 H0];
      [lia|].
    destruct (heartbeat_slot_spec from s nd0 H0)
      as (s1 & Hrun & Hheld & Hrec & Hn & Hnodes).
    assert (Hlen1 : length (nodes (PgHaCtl s1)) = length (nodes (PgHaCtl s)))
      by (rewrite Hnodes; apply length_insert).
    destruct (IH (S from) s1)
      as (s' & Hrun' & Hheld' & Hrec' & Hn' & Hl' & Hslots);
      [lia|].
    exists s'. simpl. unfold bind at 1. rewrite Hrun.
    split; [exact Hrun'|].
    split; [congruence|]. split; [congruence|]. split; [congruence|].
    split; [congruence|].
    intros j nd Hj. destruct (decide (j = from)) as [->|Hne].
    + assert (nd = nd0) as -> by congruence.
      rewrite (Hslots from (slot_after s nd0)).
      * rewrite decide_False by lia. rewrite decide_True by lia.
        rewrite Nat.sub_diag. reflexivity.
      * rewrite Hnodes. apply list_lookup_insert_eq. by eapply lookup_lt_Some.
    + rewrite (Hslots j nd) by (rewrite Hnodes, list_lookup_insert_ne; done).
      destruct (decide (S from <= j < S from + k)%nat) as [Hin|Hout].
      * rewrite decide_True by lia.
        replace (j - from)%nat with (S (j - S from)) by lia.
        simpl. unfold bind. rewrite Hrun. reflexivity.
      * rewrite decide_False by lia. reflexivity.
Qed.

Lemma doHeartbeat_returns s :
  held_lwlocks s = [] ->
  exists s',
    doHeartbeat s = Returned tt s' /\ held_lwlocks s' = [] /\
    n_nodes (PgHaCtl s') = n_nodes (PgHaCtl s).
Proof.
  intros Hfree.
  set (s0 := set_held_lwlocks [LW_SHARED] s).
  assert (Hacq : LWLockAcquire LW_SHARED s = Returned tt s0)
    by (unfold LWLockAcquire; rewrite Hfree; reflexivity).
  destruct (for_loop_heartbeat (length (nodes (PgHaCtl s0))) 0%nat s0)
    as (s1 & Hrun & Hheld & _ & Hn & _); [simpl; lia|].
  exists (set_held_lwlocks [] s1).
  unfold doHeartbeat, bind, gets. rewrite Hacq.
  unfold pgha_max_nodes. rewrite Nat2Z.id, Hrun.
  unfold LWLockRelease. rewrite Hheld. simpl.
  split; [reflexivity|]. split; [reflexivity|exact Hn].
Qed.

(** The slots [doHeartbeat] pings: in use, not the process's own, and
    not a standby when the process is itself a standby. *)
Lemma pinged_spec master nd :
  pinged master nd = true <->
  in_use nd = true /\ myself nd = false /\
  (master = true \/ type nd <> "s"%char).
Proof.
  unfold pinged.
  destruct (in_use nd), (myself nd), master; simpl;
    try (destruct (Ascii.eqb_spec (type nd) "s")); simpl;
    intuition congruence.
Qed.

(** C3: one sweep, started with the registry lock free, runs to its end
    and returns with the lock released and the counter [n_nodes] as it
    was.  Every slot keeps all its members but [retry_count].  A slot that
    is free, or the process's own, or a standby seen from a standby, keeps
    that too.  Every other slot is pinged: it ends with [retry_count] 0
    when the ping made at the moment the sweep reached it succeeded, and
    with its old value plus one ([int] arithmetic) when it failed.  This
    holds for each slot whatever the pings of the other slots answered. *)
Theorem doHeartbeat_counts s :
  held_lwlocks s = [] ->
  exists s',
    doHeartbeat s = Returned tt s' /\
    held_lwlocks s' = [] /\
    n_nodes (PgHaCtl s') = n_nodes (PgHaCtl s) /\
    length (nodes (PgHaCtl s')) = length (nodes (PgHaCtl s)) /\
    forall i nd, nodes (PgHaCtl s) !! i = Some nd ->
      exists nd',
        nodes (PgHaCtl s') !! i = Some nd' /\
        set_retry_count (retry_count nd) nd' = nd /\
        (in_use nd = false \/ myself nd = true \/
         (am_master s = false /\ type nd = "s"%char) -> nd' = nd) /\
        (in_use nd = true -> myself nd = false ->
         am_master s = true \/ type nd <> "s"%char ->
         (ping_answer (conninfo nd) (sweep_reaches s i) = true ->
          retry_count nd' = 0) /\
         (ping_answer (conninfo nd) (sweep_reaches s i) = false ->
          retry_count nd' = wrap_int (retry_count nd + 1) /\
          (INT_MIN <= retry_count nd < INT_MAX ->
           retry_count nd' = retry_count nd + 1))).
Proof.
  intros Hfree.
  set (s0 := set_held_lwlocks [LW_SHARED] s).
  assert (Hacq : LWLockAcquire LW_SHARED s = Returned tt s0)
    by (unfold LWLockAcquire; rewrite Hfree; reflexivity).
  destruct (for_loop_heartbeat (length (nodes (PgHaCtl s0))) 0%nat s0)
    as (s1 & Hrun & Hheld & Hrec & Hn & Hlen & Hslots); [simpl; lia|].
  exists (set_held_lwlocks [] s1).
  unfold doHeartbeat, bind, gets. rewrite Hacq.
  unfold pgha_max_nodes. rewrite Nat2Z.id, Hrun.
  unfold LWLockRelease. rewrite Hheld. simpl.
  split; [reflexivity|]. split; [reflexivity|]. split; [exact Hn|].
  split; [exact Hlen|].
  intros i nd Hi. specialize (Hslots i nd Hi).
  pose proof (lookup_lt_Some _ _ _ Hi) as Hlt.
  rewrite decide_True in Hslots by (simpl; lia).
  rewrite Nat.sub_0_r in Hslots.
  assert (Hreach : final_state (for_loop heartbeat_slot 0 i s0)
                   = sweep_reaches s i)
    by (unfold sweep_reaches, bind; rewrite Hacq; reflexivity).
  rewrite Hreach in Hslots.
  assert (Hm : am_master (sweep_reaches s i) = am_master s).
  { rewrite <- Hreach.
    destruct (for_loop_heartbeat i 0%nat s0) as (si & -> & _ & Hr & _);
      [simpl; lia|].
    unfold am_master. simpl. rewrite Hr. reflexivity. }
  eexists. split; [exact Hslots|].
  unfold slot_after. rewrite Hm.
  pose proof (pinged_spec (am_master s) nd) as Hspec.
  destruct (pinged (am_master s) nd).
  - destruct (proj1 Hspec eq_refl) as (Hu & Hself & Hrole).
    split; [by destruct nd|]. split.
    + intros [H|[H|[H1 H2]]]; [congruence|congruence|].
      destruct Hrole; congruence.
    + intros _ _ _.
      destruct (ping_answer (conninfo nd) (sweep_reaches s i)); simpl.
      * split; [reflexivity|discriminate].
      * split; [discriminate|]. intros _. split; [reflexivity|].
        apply wrap_int_succ.
  - split; [by destruct nd|]. split; [reflexivity|].
    intros Hu Hself Hrole. exfalso.
    assert (false = true) by (apply Hspec; auto). discriminate.
Qed.

End HeartbeatFacts.

(** ** Calls that record no step and leave the role and the replication
    flag alone *)

Section Quiet.

Context {World : Type} {env : PgEnv World}.
Implicit Types s : Backend World.

Lemma quiet_ret {A} (a : A) : quiet World (@ret World A a).
Proof. intros s. simpl. auto. Qed.

Lemma quiet_bind {A B} (m : M World A) (k : A -> M World B) :
  quiet World m -> (forall a, quiet World (k a)) -> quiet World (bind m k).
Proof.
  intros Hm Hk s. unfold bind. specialize (Hm s).
  destruct (m s) as [a s1|e s1|s1|s1]; simpl in *; try exact Hm.
  destruct Hm as (H1 & H2 & H3). destruct (Hk a s1) as (K1 & K2 & K3).
  repeat split; congruence.
Qed.

Lemma quiet_gets {A} (f : Backend World -> A) : quiet World (gets f).
Proof. intros s. simpl. auto. Qed.

Lemma quiet_modify (f : Backend World -> Backend World) :
  (forall s, steps (f s) = steps s /\ in_syncrep (f s) = in_syncrep s /\
             InRecovery (f s) = InRecovery s) ->
  quiet World (modify f).
Proof. intros H s. simpl. apply H. Qed.

Lemma quiet_ereport_ERROR {A} e : quiet World (@ereport_ERROR World A e).
Proof. intros s. simpl. auto. Qed.

Lemma quiet_ereport_LOG m : quiet World (@ereport_LOG World m).
Proof. intros s. simpl. auto. Qed.

Lemma quiet_out_of_bounds {A} : quiet World (@out_of_bounds World A).
Proof. intros s. simpl. auto. Qed.

Lemma quiet_call {A} (f : World -> A * World) : quiet World (call f).
Proof. intros s. unfold call. destruct (f (world s)). simpl. auto. Qed.

Lemma quiet_call_ (f : World -> World) : quiet World (call_ f).
Proof. intros s. simpl. auto. Qed.

Lemma quiet_LWLockAcquire mode : quiet World (@LWLockAcquire World mode).
Proof.
  intros s. unfold LWLockAcquire.
  destruct (held_lwlocks s), mode; simpl; auto.
  destruct (is_shared l && forallb is_shared l0); simpl; auto.
Qed.

Lemma quiet_LWLockRelease : quiet World (@LWLockRelease World).
Proof.
  intros s. unfold LWLockRelease. destruct (held_lwlocks s); simpl; auto.
Qed.

Ltac quiet_step :=
  match goal with
  | |- quiet World (bind _ _) => apply quiet_bind; [|intros]
  | |- quiet World (ret _) => apply quiet_ret
  | |- quiet World (gets _) => apply quiet_gets
  | |- quiet World (ereport_ERROR _) => apply quiet_ereport_ERROR
  | |- quiet World (ereport_LOG _) => apply quiet_ereport_LOG
  | |- quiet World out_of_bounds => apply quiet_out_of_bounds
  | |- quiet World (call _) => apply quiet_call
  | |- quiet World (call_ _) => apply quiet_call_
  | |- quiet World (LWLockAcquire _) => apply quiet_LWLockAcquire
  | |- quiet World LWLockRelease => apply quiet_LWLockRelease
  | |- quiet World (modify _) => apply quiet_modify; intros; simpl; auto
  | |- quiet World (if ?b then _ else _) => destruct b
  | |- quiet World (match ?x with _ => _ end) => destruct x
  | |- quiet World (let '(_, _) := ?x in _) => destruct x
  end.

Ltac solve_quiet := repeat quiet_step.

Lemma quiet_debug_show_from l :
  forall i, quiet World (@debug_show_from World i l).
Proof. induction l as [|n l IH]; intros i; simpl; solve_quiet. apply IH. Qed.

Lemma quiet_debug_show : quiet World (@debug_show World).
Proof. unfold debug_show. solve_quiet. apply quiet_debug_show_from. Qed.

Lemma quiet_addNode nm conn self dup_ok :
  quiet World (@addNode World nm conn self dup_ok).
Proof. unfold addNode. solve_quiet; apply quiet_debug_show. Qed.

Lemma quiet_get_hanode_count : quiet World (@get_hanode_count World).
Proof. unfold get_hanode_count. solve_quiet. Qed.

Lemma quiet_execSQL conn sql : quiet World (execSQL conn sql).
Proof. unfold execSQL. solve_quiet. Qed.

Lemma quiet_heartbeat_slot i : quiet World (heartbeat_slot i).
Proof.
  unfold heartbeat_slot, update_node. solve_quiet; apply quiet_execSQL.
Qed.

Lemma quiet_for_loop (body : nat -> M World unit) count :
  (forall i, quiet World (body i)) ->
  forall from, quiet World (for_loop body from count).
Proof.
  intros Hb. induction count as [|k IH]; intros from; simpl; solve_quiet; auto.
Qed.

Lemma quiet_doHeartbeat : quiet World doHeartbeat.
Proof.
  unfold doHeartbeat. solve_quiet.
  apply quiet_for_loop, quiet_heartbeat_slot.
Qed.

Lemma quiet_changeToAsync : quiet World changeToAsync.
Proof. unfold changeToAsync. solve_quiet; apply quiet_execSQL. Qed.

Lemma quiet_run_handlers t h : quiet World (run_handlers t h).
Proof. unfold run_handlers, pgha_sigterm, pgha_sighup. solve_quiet. Qed.

Lemma quiet_checkParameter : quiet World checkParameter.
Proof. unfold checkParameter. solve_quiet. Qed.

End Quiet.

(** ** The order of the steps of a coordinator cycle *)

Section CycleFacts.

Context {World : Type} {env : PgEnv World}.
Implicit Types s : Backend World.

Lemma emits_quiet {A} primary syn (m : M World A) (P : list Step -> Prop) :
  quiet World m -> P [] -> emits World primary syn m P.
Proof.
  intros Hq HP s Hm Hs. destruct (Hq s) as (H1 & H2 & H3).
  exists []. rewrite app_nil_r. unfold am_master in *.
  repeat split; auto; congruence.
Qed.

Lemma emits_ret {A} primary syn (a : A) (P : list Step -> Prop) :
  P [] -> emits World primary syn (@ret World A a) P.
Proof. apply emits_quiet, quiet_ret. Qed.

Lemma emits_bind {A B} primary syn (m : M World A) (k : A -> M World B)
      (P1 P2 P : list Step -> Prop) :
  emits World primary syn m P1 ->
  (forall a, emits World primary syn (k a) P2) ->
  (forall c1, P1 c1 -> P c1) ->
  (forall c1 c2, P1 c1 -> P2 c2 -> P (c1 ++ c2)) ->
  emits World primary syn (bind m k) P.
Proof.
  intros Hm Hk Hfail Hseq s Hr Hs. unfold bind.
  destruct (Hm s Hr Hs) as (c1 & E1 & R1 & S1 & HP1).
  destruct (m s) as [a s1|e s1|s1|s1]; simpl in *;
    [|exists c1; auto..].
  destruct (Hk a s1 R1 S1) as (c2 & E2 & R2 & S2 & HP2).
  exists (c1 ++ c2). rewrite E2, E1, app_assoc. auto.
Qed.

Lemma emits_bind_quiet {A B} primary syn (m : M World A)
      (k : A -> M World B) (P : list Step -> Prop) :
  quiet World m -> (forall a, emits World primary syn (k a) P) -> P [] ->
  emits World primary syn (bind m k) P.
Proof.
  intros Hq Hk H0.
  apply (emits_bind primary syn m k (fun c => c = []) P P); auto.
  - by apply emits_quiet.
  - by intros c1 ->.
  - by intros c1 c2 ->.
Qed.

Lemma emits_bind_step {B} primary syn (t : Step) (k : unit -> M World B)
      (P : list Step -> Prop) :
  emits World primary syn (k tt) (fun c => P (t :: c)) ->
  emits World primary syn (bind (step t) k) P.
Proof.
  intros Hk s Hr Hs. unfold bind, step, modify.
  destruct (Hk (add_step t s) Hr Hs) as (c & E & R1 & S1 & HP).
  exists (t :: c). simpl in E. rewrite E, <- app_assoc. auto.
Qed.

Lemma emits_bind_syn {B} primary syn (k : bool -> M World B)
      (P : list Step -> Prop) :
  emits World primary syn (k syn) P ->
  emits World primary syn (bind (gets in_syncrep) k) P.
Proof.
  intros Hk s Hr Hs. unfold bind, gets. rewrite Hs. by apply Hk.
Qed.

Lemma emits_bind_role {B} primary syn (k : bool -> M World B)
      (P : list Step -> Prop) :
  emits World primary syn (k primary) P ->
  emits World primary syn (bind (gets am_master) k) P.
Proof.
  intros Hk s Hr Hs. unfold bind, gets. rewrite Hr. by apply Hk.
Qed.

End CycleFacts.

Section CoordinatorFacts.

Context {World : Type} {env : PgEnv World}.
Implicit Types s : Backend World.

Ltac mem_inv :=
  repeat match goal with
         | H : _ ∈ [] |- _ => inversion H
         | H : _ ∈ _ :: _ |- _ =>
             apply elem_of_cons in H as [H|H]; [try discriminate H|]
         end.

Ltac mem_here :=
  repeat first [ apply list_elem_of_here | apply list_elem_of_further ].

Ltac count_inv :=
  repeat match goal with
         | H : StCount _ = StCount _ |- _ => injection H as H; subst
         | H : (1 <? _) = true |- _ => apply Z.ltb_lt in H
         | H : (1 <? _) = false |- _ => apply Z.ltb_ge in H
         end.

Ltac cycle_ok_leaf :=
  cbv beta; simpl app; unfold cycle_ok; count_inv;
  repeat match goal with |- _ /\ _ => split end;
  [ eexists; reflexivity
  | repeat first [ apply SSorted_nil | apply SSorted_cons
                 | apply List.Forall_nil | apply List.Forall_cons ];
    simpl; lia
  | intros Hin; mem_inv; eexists; (split; [mem_here | lia])
  | intros h Hin; mem_inv; repeat split; mem_here
  | intros Hin; mem_inv; mem_here
  | intros m Hin Hle; mem_inv; count_inv; try lia;
    repeat split; unfold not; intros; mem_inv ].

Lemma reads_only_quiet (evaluate : M World bool) :
  reads_only evaluate -> quiet World evaluate.
Proof. intros H s. destruct (H s) as (h & ->). simpl. auto. Qed.

Lemma reads_only_checkClusterStatus : reads_only (@checkClusterStatus World).
Proof. intros s. by exists true. Qed.

Lemma master_cycle_with_steps (evaluate : M World bool) primary syn :
  quiet World evaluate ->
  emits World primary syn (master_cycle_with evaluate)
        (fun c => cycle_ok true syn (StShutdownCheck :: c)).
Proof.
  intros Hev. unfold master_cycle_with.
  apply emits_bind_quiet; [apply quiet_gets| |cycle_ok_leaf].
  intros timeout.
  apply emits_bind_quiet; [apply quiet_call| |cycle_ok_leaf].
  intros w.
  apply emits_bind_quiet; [apply quiet_run_handlers| |cycle_ok_leaf].
  intros _.
  destruct (wl_postmaster_death w); [apply emits_ret; cycle_ok_leaf|].
  apply emits_bind_quiet; [apply quiet_gets| |cycle_ok_leaf].
  intros hup.
  apply (emits_bind primary syn _ _
           (fun c => c = if hup then [StReload] else [])
           (fun c2 => cycle_ok true syn
                        (StShutdownCheck ::
                           (if hup then [StReload] else []) ++ c2))).
  { destruct hup; [|by apply emits_ret].
    apply emits_bind_step.
    apply emits_quiet; [|reflexivity].
    repeat (apply quiet_bind; [|intros]);
      first [apply quiet_call | apply quiet_modify; intros; simpl; auto]. }
  2: { intros c1 ->. destruct hup; cycle_ok_leaf. }
  2: { intros c1 c2 -> H. exact H. }
  intros _.
  apply emits_bind_quiet;
    [apply quiet_get_hanode_count| |destruct hup; cycle_ok_leaf].
  intros n. apply emits_bind_step.
  apply (emits_bind primary syn _ _
           (fun c => cycle_ok true syn
                       (StShutdownCheck ::
                          (if hup then [StReload] else []) ++ StCount n :: c))
           (fun c2 => c2 = [])).
  2: { intros _. by apply emits_ret. }
  2: { auto. }
  2: { intros c1 c2 H ->. by rewrite app_nil_r. }
  destruct (1 <? n) eqn:Hn; [|apply emits_ret; destruct hup; cycle_ok_leaf].
  apply emits_bind_step.
  apply emits_bind_quiet;
    [apply quiet_doHeartbeat| |destruct hup; cycle_ok_leaf].
  intros _. apply emits_bind_syn.
  destruct syn; [|apply emits_ret; destruct hup; cycle_ok_leaf].
  apply emits_bind_quiet;
    [exact Hev| |destruct hup; cycle_ok_leaf].
  intros healthy. apply emits_bind_step.
  destruct healthy; simpl negb; cbv iota.
  - apply emits_ret; destruct hup; cycle_ok_leaf.
  - apply emits_bind_step.
    apply emits_quiet; [apply quiet_changeToAsync|].
    destruct hup; cycle_ok_leaf.
Qed.

Lemma rounds_nil primary syn : rounds primary syn [].
Proof. exists []. split; [reflexivity|constructor]. Qed.

Lemma rounds_cons primary syn c1 c2 :
  cycle_ok primary syn (StShutdownCheck :: c1) -> rounds primary syn c2 ->
  rounds primary syn (StShutdownCheck :: c1 ++ c2).
Proof.
  intros H1 (cycles & -> & Hall).
  exists ((StShutdownCheck :: c1) :: cycles). split; [reflexivity|].
  by constructor.
Qed.

Lemma master_while_with_steps (evaluate : M World bool) primary syn fuel :
  quiet World evaluate ->
  emits World primary syn (master_while_with evaluate fuel)
        (rounds true syn).
Proof.
  intros Hev. induction fuel as [|k IH]; simpl.
  - apply emits_ret, rounds_nil.
  - apply emits_bind_quiet; [apply quiet_call| |apply rounds_nil].
    intros sg.
    apply emits_bind_quiet; [apply quiet_run_handlers| |apply rounds_nil].
    intros _.
    apply emits_bind_quiet; [apply quiet_gets| |apply rounds_nil].
    intros term. apply emits_bind_step.
    assert (Hone : forall c, cycle_ok true syn (StShutdownCheck :: c) ->
                             rounds true syn (StShutdownCheck :: c)).
    { intros c Hc. rewrite <- (app_nil_r c).
      apply rounds_cons; [exact Hc|apply rounds_nil]. }
    destruct term.
    + apply emits_ret, Hone. cycle_ok_leaf.
    + apply (emits_bind primary syn _ _
               (fun c => cycle_ok true syn (StShutdownCheck :: c))
               (rounds true syn)).
      * by apply master_cycle_with_steps.
      * intros [b|]; [apply emits_ret, rounds_nil|exact IH].
      * exact Hone.
      * intros c1 c2. apply rounds_cons.
Qed.

Lemma PgHaMain_steps fuel s :
  exists cycles,
    steps (final_state (PgHaMain fuel s)) = steps s ++ concat cycles /\
    Forall (cycle_ok (am_master s) (in_syncrep s)) cycles /\
    (am_master s = false -> cycles = []).
Proof.
  assert (H : emits World (am_master s) (in_syncrep s) (PgHaMain fuel)
                    (fun c => exists cycles,
                       c = concat cycles /\
                       Forall (cycle_ok (am_master s) (in_syncrep s)) cycles /\
                       (am_master s = false -> cycles = []))).
  { assert (H0 : exists cycles : list (list Step),
               [] = concat cycles /\
               Forall (cycle_ok (am_master s) (in_syncrep s)) cycles /\
               (am_master s = false -> cycles = []))
      by (exists []; repeat split; constructor).
    unfold PgHaMain.
    apply emits_bind_quiet; [apply quiet_checkParameter| |exact H0].
    intros _.
    apply emits_bind_quiet; [apply quiet_gets| |exact H0].
    intros nn.
    apply emits_bind_quiet; [apply quiet_gets| |exact H0].
    intros ci.
    apply emits_bind_quiet; [apply quiet_addNode| |exact H0].
    intros _. apply emits_bind_role.
    destruct (am_master s) eqn:Hm.
    - unfold PgHaMasterLoop.
      apply emits_bind_quiet; [apply quiet_ereport_LOG| |exact H0].
      intros _ s1 R1 S1.
      destruct (master_while_with_steps checkClusterStatus true
                  (in_syncrep s) fuel
                  (reads_only_quiet _ reads_only_checkClusterStatus)
                  s1 R1 S1) as (c & Hc & R2 & S2 & cycles & -> & Hall).
      exists (concat cycles). repeat split; auto.
      exists cycles. repeat split; auto. discriminate.
    - apply emits_bind_quiet; [apply quiet_ret| |exact H0].
      intros r. apply emits_ret. exact H0. }
  destruct (H s eq_refl eq_refl)
    as (c & Hc & _ & _ & cycles & -> & Hall & Hnone).
  exists cycles. auto.
Qed.

(** The handlers of the signals that have arrived set their flags and
    return. *)
Lemma run_handlers_returns t h s :
  run_handlers t h s =
    Returned tt (set_got_sighup (h || got_sighup s)
                   (set_got_sigterm (t || got_sigterm s) s)).
Proof.
  unfold run_handlers, bind, pgha_sigterm, pgha_sighup, modify, ret.
  destruct s, t, h; reflexivity.
Qed.

Lemma master_while_with_unroll (evaluate : M World bool) fuel s :
  master_while_with evaluate (S fuel) s =
    if got_sigterm (at_test s)
    then Returned (Some true) (at_test s)
    else (r <- master_cycle_with evaluate ;;
          match r with
          | Some b => ret (Some b)
          | None => master_while_with evaluate fuel
          end) (at_test s).
Proof.
  simpl. unfold at_test, bind at 1 2, call.
  destruct (signals_between (world s)) as [[t h] w]. cbn [fst snd].
  rewrite run_handlers_returns. cbn [final_state].
  unfold bind at 1 2, gets, step, modify. cbn [got_sigterm set_got_sighup
    set_got_sigterm add_step].
  destruct (t || _); reflexivity.
Qed.

Lemma at_test_frame s :
  PgHaCtl (at_test s) = PgHaCtl s /\
  held_lwlocks (at_test s) = held_lwlocks s /\
  in_syncrep (at_test s) = in_syncrep s.
Proof.
  unfold at_test. destruct (signals_between (world s)) as [[t h] w].
  rewrite run_handlers_returns. simpl. auto.
Qed.

Lemma woken_frame s :
  PgHaCtl (snd (woken s)) = PgHaCtl s /\
  held_lwlocks (snd (woken s)) = held_lwlocks s /\
  in_syncrep (snd (woken s)) = in_syncrep s.
Proof.
  unfold woken.
  destruct (WaitLatch (pgha_keepalives_time s * 1000) (world s)) as [w wld].
  rewrite run_handlers_returns. simpl. auto.
Qed.

Lemma reloaded_frame s :
  PgHaCtl (reloaded s) = PgHaCtl s /\
  held_lwlocks (reloaded s) = held_lwlocks s /\
  in_syncrep (reloaded s) = in_syncrep s.
Proof.
  unfold reloaded. destruct (got_sighup s); [|auto].
  destruct (ProcessConfigFile (world (set_got_sighup false
                                        (add_step StReload s))))
    as [g wld] eqn:E.
  simpl in *. rewrite E. simpl. auto.
Qed.

Lemma get_hanode_count_returns s :
  held_lwlocks s = [] ->
  get_hanode_count s = Returned (n_nodes (PgHaCtl s)) s.
Proof.
  intros Hfree. unfold get_hanode_count, bind, LWLockAcquire.
  rewrite Hfree. simpl. unfold LWLockRelease. simpl.
  destruct s; simpl in *. by subst.
Qed.

Lemma iteration_runs_in_order (evaluate : M World bool) fuel s :
  reads_only evaluate -> held_lwlocks s = [] ->
  iteration_in_order evaluate fuel s.
Proof.
  intros Hev Hfree. unfold iteration_in_order.
  remember (master_while_with evaluate (S fuel) s) as run eqn:Hl.
  rewrite master_while_with_unroll in Hl.
  destruct (at_test_frame s) as (C0 & L0 & Y0).
  set (s0 := at_test s) in *.
  destruct (got_sigterm s0) eqn:Eterm; [exact Hl|].
  destruct (woken_frame s0) as (C1 & L1 & Y1).
  assert (Hcyc : master_cycle_with evaluate s0 =
                 if wl_postmaster_death (fst (woken s0))
                 then Returned (Some false) (snd (woken s0))
                 else
                   (n <- get_hanode_count ;;
                    step (StCount n) ;;
                    (if 1 <? n
                     then
                       step StSweep ;;
                       doHeartbeat ;;
                       syn <- gets in_syncrep ;;
                       if syn
                       then
                         healthy <- evaluate ;;
                         step (StEvaluate healthy) ;;
                         if negb healthy
                         then step StActuate ;; changeToAsync
                         else ret tt
                       else ret tt
                     else ret tt) ;;
                    ret None) (reloaded (snd (woken s0)))).
  { unfold master_cycle_with, woken, bind at 1 2 3, gets at 1, call at 1.
    destruct (WaitLatch (pgha_keepalives_time s0 * 1000) (world s0))
      as [w wld].
    rewrite run_handlers_returns. cbn [final_state fst snd].
    destruct (wl_postmaster_death w); [reflexivity|].
    unfold bind at 1 2, gets at 1, reloaded.
    match goal with
    | |- context [got_sighup ?x] => destruct (got_sighup x) eqn:Hup
    end; [|reflexivity].
    unfold bind at 1 2 3 4, step at 1, modify, call.
    cbn [world set_got_sighup add_step].
    match goal with
    | |- context [ProcessConfigFile ?x] => destruct (ProcessConfigFile x)
    end. reflexivity. }
  unfold bind at 1 in Hl. rewrite Hcyc in Hl. clear Hcyc.
  destruct (woken s0) as [w s1]. cbn [fst snd] in *.
  destruct (wl_postmaster_death w) eqn:Edeath; [exact Hl|].
  destruct (reloaded_frame s1) as (C2 & L2 & Y2).
  set (s2 := reloaded s1) in *.
  assert (L : held_lwlocks s2 = []) by congruence.
  assert (C : n_nodes (PgHaCtl s2) = n_nodes (PgHaCtl s)) by congruence.
  assert (Y : in_syncrep s2 = in_syncrep s) by congruence.
  pose proof (get_hanode_count_returns s2 L) as Hcount.
  rewrite C in Hcount.
  split; [exact L|]. split; [exact Hcount|].
  unfold bind at 1 2 in Hl. rewrite Hcount in Hl.
  unfold bind at 1, step at 1, modify in Hl.
  set (n := n_nodes (PgHaCtl s)) in *.
  set (s3 := add_step (StCount n) s2) in *.
  destruct (1 <? n) eqn:En; [|exact Hl].
  destruct (doHeartbeat_returns (add_step StSweep s3)) as (s4 & Hrun & L4 & _);
    [exact L|].
  destruct (quiet_doHeartbeat (add_step StSweep s3)) as (T4 & Y4 & _).
  rewrite Hrun in T4, Y4. cbn [final_state] in T4, Y4.
  exists s4. split; [exact Hrun|]. split; [exact T4|]. split; [exact L4|].
  unfold bind at 1 2 3, step at 1, modify in Hl. rewrite Hrun in Hl.
  unfold bind at 1, gets in Hl.
  assert (Y' : in_syncrep s4 = in_syncrep s) by (rewrite Y4; exact Y).
  rewrite Y' in Hl. destruct (in_syncrep s) eqn:Esyn; [|exact Hl].
  destruct (Hev s4) as (h & Hh). exists h. split; [exact Hh|].
  unfold bind at 1 2 in Hl. rewrite Hh in Hl.
  unfold step, modify, bind in Hl.
  destruct h; cbn [negb] in Hl; [exact Hl|].
  rewrite Hl. unfold bind, step, modify.
  destruct (changeToAsync _); reflexivity.
Qed.

End CoordinatorFacts.

(** ** Successful inserts and removals, and join_node *)

Section JoinFacts.

Context {World : Type} {env : PgEnv World}.
Implicit Types s : Backend World.

Lemma untouched_refl s : untouched s s.
Proof. unfold untouched. repeat split. Qed.

Lemma untouched_trans s1 s2 s3 :
  untouched s1 s2 -> untouched s2 s3 -> untouched s1 s3.
Proof. unfold untouched. intuition congruence. Qed.

Lemma debug_show_from_returns l : forall i s,
  exists s', debug_show_from i l s = Returned tt s' /\ untouched s s'.
Proof.
  induction l as [|n l IH]; intros i s; simpl.
  - exists s. split; [reflexivity|apply untouched_refl].
  - unfold bind. destruct (in_use n); simpl.
    + destruct (IH (S i)
                  (add_log (log_node i (name n) (conninfo n) (type n)) s))
        as (s' & -> & U).
      exists s'. split; [reflexivity|].
      eapply untouched_trans; [|exact U]. unfold untouched. repeat split.
    + apply IH.
Qed.

Lemma debug_show_free s :
  held_lwlocks s = [] ->
  exists s', debug_show s = Returned tt s' /\ untouched s s'.
Proof.
  intros Hfree. unfold debug_show, bind, LWLockAcquire, gets.
  rewrite Hfree. simpl.
  destruct (debug_show_from_returns (nodes (PgHaCtl s)) 0%nat
              (set_held_lwlocks [LW_SHARED] s)) as (s1 & -> & U).
  destruct U as (U1 & U2 & U3 & U4 & U5 & U6 & U7 & U8). simpl in *.
  unfold LWLockRelease. rewrite U2.
  eexists. split; [reflexivity|]. unfold untouched. simpl.
  repeat split; auto.
Qed.

(** An insert of a fresh name with room in the array. *)
Lemma addNode_fresh s nm conn self dup_ok i old :
  held_lwlocks s = [] ->
  find_node nm (nodes (PgHaCtl s)) 0 = None ->
  slot_at (PgHaCtl s) (n_nodes (PgHaCtl s)) = Some (i, old) ->
  fits NAMEDATALEN nm = true -> fits MAXPGPATH conn = true ->
  exists s',
    addNode nm conn self dup_ok s = Returned true s' /\
    held_lwlocks s' = [] /\
    InRecovery s' = InRecovery s /\
    PgHaCtl s' =
      mkCtl (wrap_int (n_nodes (PgHaCtl s) + 1))
            (<[i := mkNode nm conn (if am_master s then "m" else "s")%char
                           true self (live old) false 0]>
               (nodes (PgHaCtl s))).
Proof.
  intros Hfree Hnone Hslot Hnm Hconn.
  unfold addNode, bind, LWLockAcquire, gets. rewrite Hfree. simpl.
  rewrite Hnone, Hslot, Hnm, Hconn. simpl.
  set (s1 := set_held_lwlocks [] _).
  destruct (debug_show_free s1 eq_refl) as (s2 & -> & U).
  destruct U as (U1 & U2 & U3 & _).
  exists s2. unfold ret. repeat split; auto.
Qed.

(** A removal of a registered name, with the counter inside the array. *)
Lemma delNode_found s nm i j tail :
  held_lwlocks s = [] ->
  find_node nm (nodes (PgHaCtl s)) 0 = Some i ->
  slot_at (PgHaCtl s) (n_nodes (PgHaCtl s)) = Some (j, tail) ->
  exists s',
    delNode nm s = Returned true s' /\
    held_lwlocks s' = [] /\
    PgHaCtl s' =
      mkCtl (wrap_int (n_nodes (PgHaCtl s) - 1))
            (<[j := zero_node]> (<[i := tail]> (nodes (PgHaCtl s)))).
Proof.
  intros Hfree Hsome Hslot.
  unfold delNode, bind, LWLockAcquire, gets. rewrite Hfree. simpl.
  rewrite Hsome, Hslot. simpl.
  set (s1 := set_held_lwlocks [] _).
  destruct (debug_show_free s1 eq_refl) as (s2 & -> & U).
  destruct U as (U1 & U2 & _).
  exists s2. unfold ret. repeat split; auto.
Qed.

(** C10: in a process that is in recovery, [join_node] leaves through the
    "can be executed only on master node" ERROR at once, in the state it
    was called in; hence it returns rows, or changes the control block,
    only in a master.  In a master, called in a context that accepts a
    materialised row set, with the lock free, a new name that fits, and
    room in the array, it writes the caller into the slot at [n_nodes] and
    returns one row per in-use slot, the caller's among them. *)
Theorem join_node_master_only fcinfo nm conn s :
  (am_master s = false ->
   join_node fcinfo nm conn s = Raised join_node_only_on_master s) /\
  (forall rows s', join_node fcinfo nm conn s = Returned rows s' ->
                   am_master s = true) /\
  (PgHaCtl (final_state (join_node fcinfo nm conn s)) <> PgHaCtl s ->
   am_master s = true) /\
  (am_master s = true -> call_ok fcinfo = true ->
   held_lwlocks s = [] ->
   find_node nm (nodes (PgHaCtl s)) 0 = None ->
   fits NAMEDATALEN nm = true -> fits MAXPGPATH conn = true ->
   forall i old,
     slot_at (PgHaCtl s) (n_nodes (PgHaCtl s)) = Some (i, old) ->
     exists s',
       join_node fcinfo nm conn s
         = Returned (member_rows (nodes (PgHaCtl s'))) s' /\
       nodes (PgHaCtl s') =
         <[i := mkNode nm conn "m" true false (live old) false 0]>
           (nodes (PgHaCtl s)) /\
       (nm, conn) ∈ member_rows (nodes (PgHaCtl s'))).
Proof.
  assert (Hrec : am_master s = false ->
                 join_node fcinfo nm conn s
                 = Raised join_node_only_on_master s).
  { intros Hm. unfold join_node, bind, gets. rewrite Hm. reflexivity. }
  split; [exact Hrec|]. split; [|split].
  - intros rows s' Hret. destruct (am_master s) eqn:Hm; [reflexivity|].
    rewrite (Hrec eq_refl) in Hret. discriminate.
  - intros Hchg. destruct (am_master s) eqn:Hm; [reflexivity|].
    rewrite (Hrec eq_refl) in Hchg. simpl in Hchg. congruence.
  - intros Hm Hcall Hfree Hnone Hnm Hconn i old Hslot.
    unfold call_ok in Hcall.
    apply andb_prop in Hcall as [Hcall H4].
    apply andb_prop in Hcall as [Hcall H3].
    apply andb_prop in Hcall as [H1 H2].
    destruct (addNode_fresh s nm conn false true i old Hfree Hnone Hslot
                Hnm Hconn) as (s1 & Hadd & Hheld & _ & Hctl).
    rewrite Hm in Hctl.
    exists s1. unfold join_node, bind, gets.
    rewrite Hm, H1, H2, H3, H4. simpl. rewrite Hadd.
    unfold LWLockAcquire. rewrite Hheld. simpl.
    assert (Hs1 : set_held_lwlocks [] (set_held_lwlocks [LW_SHARED] s1) = s1)
      by (destruct s1; simpl in *; subst; reflexivity).
    unfold ret. rewrite Hs1, Hctl. simpl.
    split; [reflexivity|]. split; [reflexivity|].
    unfold member_rows.
    apply (list_elem_of_fmap_2'
             _ _ (mkNode nm conn "m" true false (live old) false 0));
      [|reflexivity].
    apply list_elem_of_filter. split; [reflexivity|].
    eapply list_elem_of_lookup_2. apply list_lookup_insert_eq.
    unfold slot_at in Hslot.
    destruct (n_nodes (PgHaCtl s) <? 0); [discriminate|].
    destruct (nodes (PgHaCtl s) !! Z.to_nat (n_nodes (PgHaCtl s))) eqn:E;
      [|discriminate].
    injection Hslot as <- <-. by eapply lookup_lt_Some.
Qed.

End JoinFacts.

(** ** The worker enters the loop *)

Section CoordinatorOrder.

Context {World : Type} {env : PgEnv World}.
Implicit Types s : Backend World.

Lemma addNode_returns_unlocked nm conn self s v s1 :
  addNode nm conn self false s = Returned v s1 -> held_lwlocks s1 = [].
Proof.
  unfold addNode, bind, LWLockAcquire, gets.
  destruct (held_lwlocks s) eqn:Hh; [|discriminate].
  simpl.
  destruct (find_node _ _ _); [discriminate|].
  destruct (slot_at _ _) as [[i old]|]; [|discriminate].
  destruct (negb _); [discriminate|].
  unfold modify, LWLockRelease. simpl.
  match goal with
  | |- context [debug_show ?x] =>
      destruct (debug_show_free x eq_refl) as (s' & -> & U)
  end.
  intros [= _ <-]. destruct U as (_ & -> & _). reflexivity.
Qed.

Lemma PgHaMain_enters_loop fuel s v s1 :
  am_master s = true ->
  checkParameter s = Returned tt s ->
  addNode (default "" (pgha_node_name s))
          (default "" (pgha_my_conninfo s)) true false s
    = Returned v s1 ->
  held_lwlocks s1 = [] /\
  PgHaMain fuel s =
    master_while_with checkClusterStatus fuel
      (add_log log_entered_master_mode s1).
Proof.
  intros Hm Hcp Hadd.
  split; [by eapply addNode_returns_unlocked|].
  destruct (quiet_addNode (default "" (pgha_node_name s))
              (default "" (pgha_my_conninfo s)) true false s)
    as (_ & _ & Hr).
  rewrite Hadd in Hr. simpl in Hr.
  unfold PgHaMain, bind. rewrite Hcp. unfold gets. rewrite Hadd.
  unfold am_master in *. rewrite Hr, Hm. reflexivity.
Qed.

(** C8: the order of the steps of the coordinator loop.
    - Every run of the worker, started in any state and cut after any
      number of rounds: the recorded steps split into rounds, and every
      round satisfies [cycle_ok]: it opens with the shutdown check;
      reload, count, sweep, evaluation and actuation follow in this
      order, each at most once; the sweep happens only after a count
      above 1; the evaluation only after the sweep, in a primary with
      [in_syncrep] set; the actuation only after an evaluation that said
      "degraded"; a round whose count is 1 or less has no sweep,
      evaluation or actuation.  A standby records no round.
    - In a primary whose parameters pass the sanity check and whose own
      record is registered, the worker is the loop, entered with the
      registry lock free.
    - The evaluation of the source answers and changes nothing.
    - With any evaluation that answers and changes nothing in the place
      of [checkClusterStatus], the same holds of every run of the loop,
      and an iteration started with the registry lock free does carry
      its stages out, each on the state the stage before it left
      ([iteration_in_order]): shutdown check; wait; reload handling; a
      count that is the counter of the registry; with a count above 1
      the sweep, which returns; then, under synchronous replication
      only, the evaluation; then, on the answer "degraded" only, the
      actuation; then the next iteration. *)
Theorem coordinator_cycle_order fuel s :
  (exists cycles,
     steps (final_state (PgHaMain fuel s)) = steps s ++ concat cycles /\
     Forall (cycle_ok (am_master s) (in_syncrep s)) cycles /\
     (am_master s = false -> cycles = [])) /\
  (forall v s1,
     am_master s = true ->
     checkParameter s = Returned tt s ->
     addNode (default "" (pgha_node_name s))
             (default "" (pgha_my_conninfo s)) true false s
       = Returned v s1 ->
     held_lwlocks s1 = [] /\
     PgHaMain fuel s =
       master_while_with checkClusterStatus fuel
         (add_log log_entered_master_mode s1)) /\
  reads_only (@checkClusterStatus World) /\
  forall evaluate : M World bool,
    reads_only evaluate ->
    (exists cycles,
       steps (final_state (master_while_with evaluate fuel s)) =
         steps s ++ concat cycles /\
       Forall (cycle_ok true (in_syncrep s)) cycles) /\
    (held_lwlocks s = [] -> iteration_in_order evaluate fuel s).
Proof.
  split; [apply PgHaMain_steps|].
  split; [intros v s1; apply PgHaMain_enters_loop|].
  split; [apply reads_only_checkClusterStatus|].
  intros evaluate Hev. split.
  - destruct (master_while_with_steps evaluate (am_master s) (in_syncrep s)
                fuel (reads_only_quiet _ Hev) s eq_refl eq_refl)
      as (c & Hc & _ & _ & cycles & -> & Hall).
    exists cycles. auto.
  - intros Hfree. by apply iteration_runs_in_order.
Qed.

End CoordinatorOrder.

(** ** Name uniqueness through inserts and removals *)

Section Uniqueness.

Context {World : Type}.
Implicit Types s : Backend World.

Lemma keeps_ctl_ret {A} (a : A) : keeps_ctl World (@ret World A a).
Proof. intros s. reflexivity. Qed.

Lemma keeps_ctl_bind {A B} (m : M World A) (k : A -> M World B) :
  keeps_ctl World m -> (forall a, keeps_ctl World (k a)) ->
  keeps_ctl World (bind m k).
Proof.
  intros Hm Hk s. unfold bind. specialize (Hm s).
  destruct (m s) as [a s1|e s1|s1|s1]; simpl in *; try exact Hm.
  rewrite (Hk a s1). exact Hm.
Qed.

Lemma keeps_ctl_LWLockAcquire mode :
  keeps_ctl World (@LWLockAcquire World mode).
Proof.
  intros s. unfold LWLockAcquire.
  destruct (held_lwlocks s), mode; simpl; auto.
  destruct (is_shared l && forallb is_shared l0); reflexivity.
Qed.

Lemma keeps_ctl_LWLockRelease : keeps_ctl World (@LWLockRelease World).
Proof.
  intros s. unfold LWLockRelease. destruct (held_lwlocks s); reflexivity.
Qed.

Lemma keeps_ctl_debug_show_from l :
  forall i, keeps_ctl World (@debug_show_from World i l).
Proof.
  induction l as [|n l IH]; intros i; simpl; [apply keeps_ctl_ret|].
  apply keeps_ctl_bind; [|intros _; apply IH].
  destruct (in_use n); intros s; reflexivity.
Qed.

Lemma keeps_ctl_debug_show : keeps_ctl World (@debug_show World).
Proof.
  unfold debug_show.
  apply keeps_ctl_bind; [apply keeps_ctl_LWLockAcquire|intros _].
  apply keeps_ctl_bind; [intros s; reflexivity|intros c].
  apply keeps_ctl_bind; [apply keeps_ctl_debug_show_from|intros _].
  apply keeps_ctl_LWLockRelease.
Qed.

Lemma keeps_ctl_epilogue :
  keeps_ctl World (@LWLockRelease World ;; debug_show ;; ret true).
Proof.
  apply keeps_ctl_bind; [apply keeps_ctl_LWLockRelease|intros _].
  apply keeps_ctl_bind; [apply keeps_ctl_debug_show|intros _].
  apply keeps_ctl_ret.
Qed.

(** What [addNode] can do to the control block. *)
Lemma addNode_ctl nm conn self dup_ok s :
  let c := PgHaCtl s in
  let c' := PgHaCtl (final_state (addNode nm conn self dup_ok s)) in
  c' = c \/
  (find_node nm (nodes c) 0 = None /\
   exists i old,
     slot_at c (n_nodes c) = Some (i, old) /\
     c' = mkCtl (wrap_int (n_nodes c + 1))
                (<[i := mkNode nm conn (if am_master s then "m" else "s")%char
                               true self (live old) false 0]> (nodes c))).
Proof.
  simpl. remember (addNode nm conn self dup_ok s) as o eqn:Ho.
  unfold addNode in Ho. unfold bind at 1 in Ho.
  pose proof (keeps_ctl_LWLockAcquire LW_EXCLUSIVE s) as K.
  assert (Hr : forall s1, LWLockAcquire LW_EXCLUSIVE s = Returned tt s1 ->
                          InRecovery s1 = InRecovery s).
  { unfold LWLockAcquire. destruct (held_lwlocks s); intros s1 [= <-];
      reflexivity. }
  destruct (LWLockAcquire LW_EXCLUSIVE s) as [[] s1|e s1|s1|s1];
    simpl in K; [|subst o; left; exact K..].
  specialize (Hr s1 eq_refl).
  unfold bind at 1, gets in Ho. rewrite K in Ho.
  destruct (find_node nm (nodes (PgHaCtl s)) 0) as [j|] eqn:Hf.
  - left. subst o. destruct (negb dup_ok); exact K.
  - destruct (slot_at (PgHaCtl s) (n_nodes (PgHaCtl s))) as [[i old]|] eqn:Hs;
      [|subst o; left; exact K].
    destruct (negb (fits NAMEDATALEN nm && fits MAXPGPATH conn));
      [subst o; left; exact K|].
    right. split; [reflexivity|]. exists i, old. split; [reflexivity|].
    unfold bind at 1, gets in Ho. unfold bind at 1, modify in Ho.
    subst o. rewrite keeps_ctl_epilogue. simpl. unfold am_master.
    rewrite Hr. reflexivity.
Qed.

(** What [delNode] can do to the control block. *)
Lemma delNode_ctl nm s :
  let c := PgHaCtl s in
  let c' := PgHaCtl (final_state (delNode nm s)) in
  c' = c \/
  (exists i j tail,
     find_node nm (nodes c) 0 = Some i /\
     slot_at c (n_nodes c) = Some (j, tail) /\
     c' = mkCtl (wrap_int (n_nodes c - 1))
                (<[j := zero_node]> (<[i := tail]> (nodes c)))).
Proof.
  simpl. remember (delNode nm s) as o eqn:Ho.
  unfold delNode in Ho. unfold bind at 1 in Ho.
  pose proof (keeps_ctl_LWLockAcquire LW_EXCLUSIVE s) as K.
  destruct (LWLockAcquire LW_EXCLUSIVE s) as [[] s1|e s1|s1|s1];
    simpl in K; [|subst o; left; exact K..].
  unfold bind at 1, gets in Ho. rewrite K in Ho.
  destruct (find_node nm (nodes (PgHaCtl s)) 0) as [i|] eqn:Hf;
    [|subst o; left; exact K].
  destruct (slot_at (PgHaCtl s) (n_nodes (PgHaCtl s))) as [[j tail]|] eqn:Hs;
    [|subst o; left; exact K].
  right. exists i, j, tail. split; [reflexivity|]. split; [reflexivity|].
  unfold bind at 1, modify in Ho. subst o.
  rewrite keeps_ctl_epilogue. reflexivity.
Qed.

Lemma slot_at_lookup c n j nd :
  slot_at c n = Some (j, nd) -> nodes c !! j = Some nd.
Proof.
  unfold slot_at. destruct (n <? 0); [discriminate|].
  destruct (nodes c !! Z.to_nat n) eqn:E; [|discriminate].
  by intros [= <- <-].
Qed.

Lemma names_unique_addNode nm conn self dup_ok s :
  names_unique (PgHaCtl s) ->
  names_unique (PgHaCtl (final_state (addNode nm conn self dup_ok s))).
Proof.
  intros Hu.
  destruct (addNode_ctl nm conn self dup_ok s)
    as [->|(Hnone & i & old & Hslot & ->)]; [exact Hu|].
  assert (Hfresh : forall q b, nodes (PgHaCtl s) !! q = Some b ->
                               in_use b = true -> name b <> nm).
  { intros q b Hq Hb Hn.
    destruct (find_node_present nm (nodes (PgHaCtl s)) 0%nat) as [j Hj];
      [|congruence].
    exists b. split; [by eapply list_elem_of_lookup_2|auto]. }
  intros p q a b Hp Hq Ha Hb Hab. simpl in Hp, Hq.
  apply list_lookup_insert_Some in Hp as [(-> & <- & Hlp)|(Hnp & Hp)];
    apply list_lookup_insert_Some in Hq as [(-> & <- & Hlq)|(Hnq & Hq)];
    simpl in *.
  - reflexivity.
  - exfalso. by apply (Hfresh q b).
  - exfalso. by apply (Hfresh p a).
  - by apply (Hu p q a b).
Qed.

Lemma names_unique_delNode nm s :
  names_unique (PgHaCtl s) ->
  names_unique (PgHaCtl (final_state (delNode nm s))).
Proof.
  intros Hu.
  destruct (delNode_ctl nm s)
    as [->|(i & j & tail & Hfind & Hslot & ->)]; [exact Hu|].
  apply slot_at_lookup in Hslot.
  intros p q a b Hp Hq Ha Hb Hab. simpl in Hp, Hq.
  apply list_lookup_insert_Some in Hp as [(-> & <- & Hlp)|(Hnp & Hp)];
    [discriminate|].
  apply list_lookup_insert_Some in Hq as [(-> & <- & Hlq)|(Hnq & Hq)];
    [discriminate|].
  apply list_lookup_insert_Some in Hp as [(-> & <- & Hlp)|(Hnp' & Hp)];
    apply list_lookup_insert_Some in Hq as [(-> & <- & Hlq)|(Hnq' & Hq)].
  - reflexivity.
  - exfalso. apply Hnq. by apply (Hu j q tail b).
  - exfalso. apply Hnp. by apply (Hu j p tail a).
  - by apply (Hu p q a b).
Qed.

(** Whatever the sequence of inserts and removals, no two in-use slots
    of the control block share a name if none did at the start.  This
    covers a run up to its first access outside the slot array or past
    the end of a buffer, where the model stops following it: a name of 64
    characters or more overruns the name buffer, and what the slots hold
    after that is not described here. *)
Lemma names_unique_run_ops ops : forall s,
  names_unique (PgHaCtl s) ->
  names_unique (PgHaCtl (final_state (run_ops ops s))).
Proof.
  induction ops as [|op ops IH]; intros s Hu; simpl; [exact Hu|].
  assert (Hop : names_unique (PgHaCtl (final_state (run_op op s)))).
  { destruct op; simpl;
      [by apply names_unique_addNode|by apply names_unique_delNode]. }
  destruct (run_op op s) as [a s1|e s1|s1|s1]; simpl in *;
    [by apply IH|by apply IH|exact Hop|exact Hop].
Qed.

Lemma names_unique_startup raw :
  names_unique (pgha_shmem_startup false raw).
Proof.
  intros i j a b Hi Hj Ha. simpl in Hi.
  apply list_lookup_fmap_Some in Hi as (x & -> & _). discriminate.
Qed.

End Uniqueness.

(** ** The theorems at concrete inputs *)

Section Instances.

Import Demo.

Lemma addNode_duplicate_rejected_witness :
  held_lwlocks one_node = [] /\
  (exists nd, nd ∈ nodes (PgHaCtl one_node) /\ in_use nd = true /\
              name nd = "a") /\
  exists s',
    addNode "a" "host=other" false false one_node
      = Raised (duplicate_node_name "a") s' /\
    PgHaCtl s' = PgHaCtl one_node.
Proof.
  assert (Hdup : exists nd, nd ∈ nodes (PgHaCtl one_node) /\
                            in_use nd = true /\ name nd = "a").
  { exists (peer "a" "host=a" "m" 0). split; [apply list_elem_of_here|].
    split; reflexivity. }
  split; [reflexivity|]. split; [exact Hdup|].
  destruct (addNode_duplicate_rejected one_node "a" "host=other" false
              eq_refl Hdup) as (s' & H1 & H2 & _).
  exists s'. split; assumption.
Defined.

Lemma addNode_duplicate_tolerated_witness :
  held_lwlocks one_node = [] /\
  (exists nd, nd ∈ nodes (PgHaCtl one_node) /\ in_use nd = true /\
              name nd = "a") /\
  exists s',
    addNode "a" "host=other" false true one_node = Returned true s' /\
    PgHaCtl s' = PgHaCtl one_node.
Proof.
  assert (Hdup : exists nd, nd ∈ nodes (PgHaCtl one_node) /\
                            in_use nd = true /\ name nd = "a").
  { exists (peer "a" "host=a" "m" 0). split; [apply list_elem_of_here|].
    split; reflexivity. }
  split; [reflexivity|]. split; [exact Hdup|].
  exact (addNode_duplicate_tolerated one_node "a" "host=other" false
           eq_refl Hdup).
Defined.

Lemma delNode_absent_rejected_witness :
  held_lwlocks one_node = [] /\
  (forall nd, nd ∈ nodes (PgHaCtl one_node) -> in_use nd = true ->
              name nd <> "b") /\
  exists s',
    delNode "b" one_node = Raised (didnt_find_given_name_node "b") s' /\
    PgHaCtl s' = PgHaCtl one_node /\
    get_hanode_count (LWLockReleaseAll s') = Returned 1 (LWLockReleaseAll s').
Proof.
  assert (Habs : forall nd, nd ∈ nodes (PgHaCtl one_node) ->
                            in_use nd = true -> name nd <> "b").
  { intros nd Hin Hu. simpl in Hin.
    apply elem_of_cons in Hin as [->|Hin]; [discriminate|].
    apply elem_of_cons in Hin as [->|Hin]; [discriminate|].
    inversion Hin. }
  split; [reflexivity|]. split; [exact Habs|].
  destruct (delNode_absent_rejected one_node "b" eq_refl Habs)
    as (s' & H1 & H2 & _ & H4 & _).
  exists s'. repeat split; assumption.
Defined.

(** One answering standby (three failures so far) and one that is down
    (two failures so far): after the sweep the first counter is 0 and the
    second is 3. *)
Lemma doHeartbeat_counts_witness :
  held_lwlocks three_nodes = [] /\
  exists s',
    doHeartbeat three_nodes = Returned tt s' /\
    (exists n1, nodes (PgHaCtl s') !! 1%nat = Some n1 /\ retry_count n1 = 0) /\
    (exists n2, nodes (PgHaCtl s') !! 2%nat = Some n2 /\ retry_count n2 = 3).
Proof.
  split; [reflexivity|].
  destruct (doHeartbeat_counts three_nodes eq_refl)
    as (s' & Hrun & _ & _ & _ & Hslots).
  destruct (Hslots 1%nat (peer "n1" "host=n1" "s" 3) eq_refl)
    as (n1 & L1 & _ & _ & H1).
  destruct (Hslots 2%nat (peer "n2" "down" "s" 2) eq_refl)
    as (n2 & L2 & _ & _ & H2).
  destruct (H1 eq_refl eq_refl (or_introl eq_refl)) as [Hok _].
  destruct (H2 eq_refl eq_refl (or_introl eq_refl)) as [_ Hfail].
  exists s'. split; [exact Hrun|]. split.
  - exists n1. split; [exact L1|]. apply Hok. vm_compute. reflexivity.
  - exists n2. split; [exact L2|].
    assert (Ha : ping_answer (conninfo (peer "n2" "down" "s" 2))
                             (sweep_reaches three_nodes 2) = false)
      by (vm_compute; reflexivity).
    destruct (Hfail Ha) as [_ Hplus]. rewrite Hplus; [reflexivity|].
    unfold INT_MIN, INT_MAX. simpl. lia.
Defined.

(** In recovery the call is refused; in a master the caller "b" is
    registered in the free slot and appears in the rows. *)
Lemma join_node_master_only_witness :
  join_node materialize_call "b" "host=b" (standby one_node)
    = Raised join_node_only_on_master (standby one_node) /\
  exists s',
    join_node materialize_call "b" "host=b" one_node
      = Returned [("a", "host=a"); ("b", "host=b")] s' /\
    n_nodes (PgHaCtl s') = 2.
Proof.
  destruct (join_node_master_only materialize_call "b" "host=b"
              (standby one_node)) as (Hrec & _).
  destruct (join_node_master_only materialize_call "b" "host=b" one_node)
    as (_ & _ & _ & Hjoin).
  split; [exact (Hrec eq_refl)|].
  destruct (Hjoin eq_refl eq_refl eq_refl eq_refl eq_refl eq_refl
              1%nat zero_node eq_refl) as (s' & Hrun & Hnodes & _).
  exists s'. rewrite Hrun, Hnodes. split; [reflexivity|].
  vm_compute in Hrun. injection Hrun as _ <-. reflexivity.
Defined.

(** A run of the worker in a primary under synchronous replication with
    one standby that is down: three rounds and the shutdown check of the
    fourth. *)
Lemma coordinator_cycle_order_witness :
  (PgHaMain 1 Demo.two_free =
     master_while_with checkClusterStatus 1
       (add_log log_entered_master_mode
          (final_state (addNode "n0" "c0" true false Demo.two_free)))) /\
  reads_only Demo.degraded /\
  held_lwlocks Demo.syncrep_nodes = [] /\
  iteration_in_order Demo.degraded 0 Demo.syncrep_nodes.
Proof.
  assert (H : reads_only Demo.degraded)
    by (intros s; exists false; reflexivity).
  split.
  { apply (proj1 (proj2 (coordinator_cycle_order 1 Demo.two_free)) true);
      [reflexivity|reflexivity|vm_compute; reflexivity]. }
  split; [exact H|]. split; [reflexivity|].
  exact (proj2 (proj2 (proj2 (proj2
           (coordinator_cycle_order 0 Demo.syncrep_nodes)))
                  Demo.degraded H) eq_refl).
Defined.

(** One iteration on three registered nodes under synchronous
    replication: with an evaluation that finds the cluster degraded the
    actuation follows it; with the evaluation of the source it does not. *)
Example degraded_iteration :
  steps (final_state (master_while_with Demo.degraded 1 Demo.syncrep_nodes))
    = [StShutdownCheck; StCount 3; StSweep; StEvaluate false; StActuate] /\
  steps (final_state (master_while 1 Demo.syncrep_nodes))
    = [StShutdownCheck; StCount 3; StSweep; StEvaluate true].
Proof. split; vm_compute; reflexivity. Qed.

Example coordinator_run :
  let s := mkBackend (mkCtl 1 [peer "n1" "down" "s" 0; zero_node; zero_node])
             [] false true true false true 5 4 (Some "n0") (Some "c0") [] []
             [mkWake false false false; mkWake false false true;
              mkWake false true false] in
  steps (final_state (PgHaMain 5 s)) =
    [StShutdownCheck; StReload; StCount 2; StSweep; StEvaluate true;
     StShutdownCheck; StReload; StCount 2; StSweep; StEvaluate true;
     StShutdownCheck; StCount 2; StSweep; StEvaluate true;
     StShutdownCheck].
Proof. vm_compute. reflexivity. Qed.

End Instances.

(** * Further properties of the registry *)

Section CountingFacts.

Implicit Types l : list PgHaNode.

Lemma filter_in_use_cons nd l :
  filter (fun n => in_use n = true) (nd :: l) =
  if in_use nd then nd :: filter (fun n => in_use n = true) l
  else filter (fun n => in_use n = true) l.
Proof.
  rewrite filter_cons. destruct (in_use nd) eqn:E.
  - by rewrite decide_True.
  - by rewrite decide_False.
Qed.

(** Number of in-use slots of a list, as a natural number. *)
Lemma in_use_count_cons n nd l :
  in_use_count (mkCtl n (nd :: l)) =
  (if in_use nd then 1 else 0) + in_use_count (mkCtl n l).
Proof.
  unfold in_use_count. simpl nodes. rewrite filter_in_use_cons.
  destruct (in_use nd); simpl length; lia.
Qed.

Lemma in_use_count_nonneg c : 0 <= in_use_count c.
Proof. unfold in_use_count. lia. Qed.

(** Overwriting one slot changes the in-use count by what the slot held
    and what it holds now. *)
Lemma in_use_count_insert l : forall i old x n n',
  l !! i = Some old ->
  in_use_count (mkCtl n' (<[i := x]> l)) + (if in_use old then 1 else 0) =
  in_use_count (mkCtl n l) + (if in_use x then 1 else 0).
Proof.
  induction l as [|nd l IH]; intros i old x n n' Hi; [discriminate|].
  destruct i as [|i]; simpl in Hi.
  - injection Hi as ->. simpl. rewrite !in_use_count_cons.
    assert (in_use_count (mkCtl n' l) = in_use_count (mkCtl n l))
      by reflexivity.
    lia.
  - simpl. rewrite !in_use_count_cons.
    specialize (IH i old x n n' Hi). lia.
Qed.

Lemma in_use_names_lookup c x :
  x ∈ in_use_names c <->
  exists p nd, nodes c !! p = Some nd /\ in_use nd = true /\ name nd = x.
Proof.
  unfold in_use_names. rewrite list_elem_of_fmap. split.
  - intros (nd & -> & Hin). apply list_elem_of_filter in Hin as [Hu Hin].
    apply list_elem_of_lookup in Hin as [p Hp]. eauto.
  - intros (p & nd & Hp & Hu & <-). exists nd. split; [reflexivity|].
    apply list_elem_of_filter. split; [exact Hu|].
    by eapply list_elem_of_lookup_2.
Qed.

(** When the in-use slots are the first [k], there are [k] of them. *)
Lemma first_slots_count l : forall k,
  (k <= length l)%nat ->
  (forall i nd, l !! i = Some nd -> (in_use nd = true <-> (i < k)%nat)) ->
  length (filter (fun n => in_use n = true) l) = k.
Proof.
  induction l as [|nd l IH]; intros k Hk Hall; simpl in Hk.
  - simpl. lia.
  - rewrite filter_in_use_cons. destruct k as [|k].
    + destruct (in_use nd) eqn:E.
      * apply (Hall 0%nat nd eq_refl) in E. lia.
      * apply (IH 0%nat); [lia|]. intros i x Hi.
        specialize (Hall (S i) x Hi). split; [|lia]. intros Hx.
        apply Hall in Hx. lia.
    + destruct (in_use nd) eqn:E.
      * simpl. f_equal. apply IH; [lia|]. intros i x Hi.
        specialize (Hall (S i) x Hi). rewrite Hall. lia.
      * assert (in_use nd = true) by (apply (Hall 0%nat nd eq_refl); lia).
        congruence.
Qed.

Lemma compact_count c : compact c -> in_use_count c = n_nodes c.
Proof.
  intros [[H0 Hn] Hall]. unfold in_use_count, pgha_max_nodes in *.
  rewrite (first_slots_count (nodes c) (Z.to_nat (n_nodes c))); [lia|lia|].
  intros i nd Hi. rewrite (Hall i nd Hi). lia.
Qed.

Lemma slot_at_range c n i nd :
  slot_at c n = Some (i, nd) ->
  0 <= n < pgha_max_nodes c /\ i = Z.to_nat n /\ nodes c !! i = Some nd.
Proof.
  unfold slot_at, pgha_max_nodes. destruct (n <? 0) eqn:E; [discriminate|].
  apply Z.ltb_ge in E.
  destruct (nodes c !! Z.to_nat n) eqn:L; [|discriminate].
  intros [= <- <-]. apply lookup_lt_Some in L as Hlt.
  repeat split; auto; lia.
Qed.

Lemma wrap_int_id z : INT_MIN <= z <= INT_MAX -> wrap_int z = z.
Proof.
  unfold wrap_int, INT_MIN, INT_MAX. intros H. rewrite Z.mod_small; lia.
Qed.

Lemma capacity_bound c : capacity_ok c -> pgha_max_nodes c <= INT_MAX.
Proof.
  unfold capacity_ok, in_range. simpl. intros H.
  apply andb_prop in H as [_ H]. by apply Z.leb_le.
Qed.

End CountingFacts.

Section RegistryMore.

Context {World : Type}.
Implicit Types s : Backend World.

(** X1: a segment that [pgha_shmem_startup] initialises is an empty
    registry of the same capacity: the counter is 0, no slot is in use
    whatever the segment held, no name is found by the scan, and the
    in-use slots are (vacuously) the slots below the counter. *)
Theorem startup_registry_empty raw :
  let c := pgha_shmem_startup false raw in
  n_nodes c = 0 /\
  pgha_max_nodes c = pgha_max_nodes raw /\
  in_use_count c = 0 /\
  in_use_names c = [] /\
  (forall nm, find_node nm (nodes c) 0 = None) /\
  compact c.
Proof.
  assert (Hfree : forall i nd,
             map (set_in_use false) (nodes raw) !! i = Some nd ->
             in_use nd = false).
  { induction (nodes raw) as [|x l IH]; intros i nd Hi; [discriminate|].
    destruct i as [|i]; simpl in Hi; [by injection Hi as <-|by eapply IH]. }
  assert (Hnil : filter (fun n => in_use n = true)
                        (map (set_in_use false) (nodes raw)) = []).
  { clear Hfree. induction (nodes raw) as [|x l IH]; [reflexivity|].
    simpl map. rewrite filter_in_use_cons. simpl. exact IH. }
  simpl. split; [reflexivity|]. split.
  { unfold pgha_max_nodes. simpl. by rewrite length_map. }
  split; [unfold in_use_count; simpl; by rewrite Hnil|].
  split; [unfold in_use_names; simpl; by rewrite Hnil|].
  split.
  - intros nm. apply find_node_absent. intros nd Hin Hu.
    apply list_elem_of_lookup in Hin as [i Hi].
    apply Hfree in Hi. congruence.
  - split; [unfold pgha_max_nodes; simpl; lia|].
    intros i nd Hi. apply Hfree in Hi. rewrite Hi. simpl.
    split; [discriminate|lia].
Qed.

Lemma find_node_lookup nm l i :
  find_node nm l 0 = Some i ->
  exists nd, l !! i = Some nd /\ in_use nd = true /\ name nd = nm.
Proof.
  intros H. destruct (find_node_hit _ _ _ _ H) as (nd & Hl & Hu & Hn).
  rewrite Nat.sub_0_r in Hl. eauto.
Qed.

(** X2: the insert of a name that no in-use slot carries, with the lock
    free, strings that fit and the counter inside the array, returns
    [true] with the lock released; the slot at the old counter holds the
    new record (failure counter 0, not synchronous, type by role), every
    other slot is as before, [get_hanode_count] is one more than before,
    and a second [add_node] of the same name is refused as a duplicate. *)
Theorem addNode_registers s nm conn self dup_ok i old :
  held_lwlocks s = [] ->
  capacity_ok (PgHaCtl s) ->
  (forall nd, nd ∈ nodes (PgHaCtl s) -> in_use nd = true -> name nd <> nm) ->
  slot_at (PgHaCtl s) (n_nodes (PgHaCtl s)) = Some (i, old) ->
  fits NAMEDATALEN nm = true -> fits MAXPGPATH conn = true ->
  exists s',
    addNode nm conn self dup_ok s = Returned true s' /\
    held_lwlocks s' = [] /\
    nodes (PgHaCtl s') !! i =
      Some (mkNode nm conn (if am_master s then "m" else "s")%char
                   true self (live old) false 0) /\
    (forall j, j <> i -> nodes (PgHaCtl s') !! j = nodes (PgHaCtl s) !! j) /\
    get_hanode_count s' = Returned (n_nodes (PgHaCtl s) + 1) s' /\
    forall conn', exists s'',
      add_node nm conn' s' = Raised (duplicate_node_name nm) s'' /\
      PgHaCtl s'' = PgHaCtl s'.
Proof.
  intros Hfree Hcap Hfresh Hslot Hnm Hconn.
  pose proof (find_node_absent nm _ 0%nat Hfresh) as Hnone.
  destruct (addNode_fresh s nm conn self dup_ok i old Hfree Hnone Hslot
              Hnm Hconn) as (s' & Hrun & Hheld & _ & Hctl).
  destruct (slot_at_range _ _ _ _ Hslot) as (Hn & Hi & Hold).
  pose proof (capacity_bound _ Hcap) as Hmax.
  pose proof (lookup_lt_Some _ _ _ Hold) as Hlt.
  assert (Hi' : nodes (PgHaCtl s') !! i =
                Some (mkNode nm conn (if am_master s then "m" else "s")%char
                             true self (live old) false 0)).
  { rewrite Hctl. simpl. by apply list_lookup_insert_eq. }
  exists s'. split; [exact Hrun|]. split; [exact Hheld|].
  split; [exact Hi'|]. split.
  { intros j Hj. rewrite Hctl. simpl. by apply list_lookup_insert_ne. }
  split.
  { rewrite (get_hanode_count_free s' Hheld), Hctl. simpl.
    rewrite wrap_int_id; [reflexivity|]. unfold INT_MIN. lia. }
  intros conn'.
  unfold add_node, addNode, bind, LWLockAcquire, gets. rewrite Hheld. simpl.
  destruct (find_node_present nm (nodes (PgHaCtl s')) 0%nat) as [j Hj].
  { eexists. split; [by eapply list_elem_of_lookup_2|]. split; reflexivity. }
  rewrite Hj. simpl. eexists. split; reflexivity.
Qed.

Lemma addNode_capacity nm conn self dup_ok s :
  pgha_max_nodes (PgHaCtl (final_state (addNode nm conn self dup_ok s)))
  = pgha_max_nodes (PgHaCtl s).
Proof.
  destruct (addNode_ctl nm conn self dup_ok s)
    as [->|(_ & i & old & _ & ->)]; [reflexivity|].
  unfold pgha_max_nodes. simpl. by rewrite length_insert.
Qed.

Lemma delNode_capacity nm s :
  pgha_max_nodes (PgHaCtl (final_state (delNode nm s)))
  = pgha_max_nodes (PgHaCtl s).
Proof.
  destruct (delNode_ctl nm s) as [->|(i & j & tail & _ & _ & ->)];
    [reflexivity|].
  unfold pgha_max_nodes. simpl. by rewrite !length_insert.
Qed.

Lemma compact_addNode nm conn self dup_ok s :
  capacity_ok (PgHaCtl s) -> compact (PgHaCtl s) ->
  compact (PgHaCtl (final_state (addNode nm conn self dup_ok s))).
Proof.
  intros Hcap Hc.
  destruct (addNode_ctl nm conn self dup_ok s)
    as [->|(_ & i & old & Hslot & ->)]; [exact Hc|].
  destruct (slot_at_range _ _ _ _ Hslot) as (Hn & Hi & Hold).
  pose proof (capacity_bound _ Hcap) as Hmax.
  destruct Hc as [_ Hall].
  rewrite wrap_int_id by (unfold INT_MIN; lia).
  split.
  - unfold pgha_max_nodes in *. simpl. rewrite length_insert. lia.
  - intros j nd Hj. simpl in Hj |- *.
    apply list_lookup_insert_Some in Hj as [(<- & <- & _)|(Hne & Hj)].
    + simpl. split; [lia|reflexivity].
    + rewrite (Hall j nd Hj). lia.
Qed.

(** X3: in a registry whose in-use slots are exactly the slots below
    the counter, inserts alone keep it so, as long as none of them writes
    outside the slot array or past the end of a buffer, and whether each
    of them registers its node, is refused as a duplicate or is tolerated
    as one: after such a sequence of inserts the counter equals the number
    of in-use slots. *)
Theorem insert_only_count_exact ops : forall s,
  forallb is_insert ops = true ->
  capacity_ok (PgHaCtl s) ->
  compact (PgHaCtl s) ->
  in_bounds (run_ops ops s) ->
  compact (PgHaCtl (final_state (run_ops ops s))) /\
  n_nodes (PgHaCtl (final_state (run_ops ops s)))
  = in_use_count (PgHaCtl (final_state (run_ops ops s))).
Proof.
  assert (Hgoal : forall s, forallb is_insert ops = true ->
            capacity_ok (PgHaCtl s) -> compact (PgHaCtl s) ->
            compact (PgHaCtl (final_state (run_ops ops s)))).
  { induction ops as [|op ops IH]; intros s Hins Hcap Hc; [exact Hc|].
    simpl in Hins. apply andb_prop in Hins as [Hop Hins].
    destruct op as [nm conn self dup_ok|nm]; [|discriminate].
    simpl.
    pose proof (compact_addNode nm conn self dup_ok s Hcap Hc) as Hc'.
    pose proof (addNode_capacity nm conn self dup_ok s) as Hk.
    assert (Hcap' : capacity_ok
                      (PgHaCtl (final_state (addNode nm conn self dup_ok s))))
      by (unfold capacity_ok; rewrite Hk; exact Hcap).
    destruct (addNode nm conn self dup_ok s) as [a s1|e s1|s1|s1];
      simpl in *; [by apply IH|by apply IH|exact Hc'|exact Hc']. }
  intros s Hins Hcap Hc _.
  split; [by apply Hgoal|]. symmetry. apply compact_count. by apply Hgoal.
Qed.

(** X4: the removal of a registered name, with the lock free and the
    counter inside the array, returns [true] with the lock released,
    lowers [get_hanode_count] by one and the number of in-use slots by
    one, and keeps every other name: a name different from the removed
    one is in use afterwards exactly when it was before.  When no two
    in-use slots shared a name, the removed name is no longer in use and
    a second [del_node] of it is refused. *)
Theorem delNode_removes_named s nm j tail :
  held_lwlocks s = [] ->
  capacity_ok (PgHaCtl s) ->
  nm ∈ in_use_names (PgHaCtl s) ->
  slot_at (PgHaCtl s) (n_nodes (PgHaCtl s)) = Some (j, tail) ->
  exists s',
    delNode nm s = Returned true s' /\
    held_lwlocks s' = [] /\
    get_hanode_count s' = Returned (n_nodes (PgHaCtl s) - 1) s' /\
    in_use_count (PgHaCtl s') = in_use_count (PgHaCtl s) - 1 /\
    (forall x, x <> nm ->
               (x ∈ in_use_names (PgHaCtl s') <->
                x ∈ in_use_names (PgHaCtl s))) /\
    (names_unique (PgHaCtl s) ->
     (nm ∉ in_use_names (PgHaCtl s')) /\
     exists s'',
       del_node nm s' = Raised (didnt_find_given_name_node nm) s'' /\
       PgHaCtl s'' = PgHaCtl s').
Proof.
  intros Hfree Hcap Hin Hslot.
  apply in_use_names_lookup in Hin as (p0 & nd0 & Hp0 & Hu0 & Hn0).
  destruct (find_node_present nm (nodes (PgHaCtl s)) 0%nat) as [i Hfind].
  { exists nd0. split; [by eapply list_elem_of_lookup_2|auto]. }
  destruct (find_node_lookup _ _ _ Hfind) as (found & Hi & Hfu & Hfn).
  destruct (delNode_found s nm i j tail Hfree Hfind Hslot)
    as (s' & Hrun & Hheld & Hctl).
  destruct (slot_at_range _ _ _ _ Hslot) as (Hn & Hj & Htail).
  pose proof (capacity_bound _ Hcap) as Hmax.
  pose proof (lookup_lt_Some _ _ _ Hi) as Hlti.
  pose proof (lookup_lt_Some _ _ _ Htail) as Hltj.
  set (l := nodes (PgHaCtl s)) in *.
  assert (Hl1j : <[i := tail]> l !! j = Some tail).
  { destruct (decide (i = j)) as [->|Hne];
      [by apply list_lookup_insert_eq|by rewrite list_lookup_insert_ne]. }
  assert (Hlook : forall p nd,
             nodes (PgHaCtl s') !! p = Some nd ->
             in_use nd = true ->
             p <> j /\ ((p = i /\ nd = tail) \/ (p <> i /\ l !! p = Some nd))).
  { intros p nd Hp Hu. rewrite Hctl in Hp. simpl in Hp.
    apply list_lookup_insert_Some in Hp as [(<- & <- & _)|(Hne & Hp)];
      [discriminate|].
    split; [congruence|].
    apply list_lookup_insert_Some in Hp as [(<- & <- & _)|(Hne' & Hp)];
      [by left|right; split; [congruence|exact Hp]]. }
  assert (Hnames : forall x, x <> nm ->
             (x ∈ in_use_names (PgHaCtl s') <-> x ∈ in_use_names (PgHaCtl s))).
  { intros x Hx. rewrite !in_use_names_lookup. split.
    - intros (p & nd & Hp & Hu & Hnx).
      destruct (Hlook p nd Hp Hu) as [Hpj [[-> ->]|[Hpi Hlp]]]; eauto.
    - intros (p & nd & Hp & Hu & Hnx). fold l in Hp.
      assert (Hpi : p <> i) by (intros ->; congruence).
      destruct (decide (p = j)) as [->|Hpj].
      + exists i, nd. split; [|auto]. rewrite Hctl. simpl.
        rewrite list_lookup_insert_ne by congruence.
        assert (nd = tail) as -> by congruence.
        by apply list_lookup_insert_eq.
      + exists p, nd. split; [|auto]. rewrite Hctl. simpl.
        rewrite !list_lookup_insert_ne by congruence. exact Hp. }
  exists s'. split; [exact Hrun|]. split; [exact Hheld|]. split.
  { rewrite (get_hanode_count_free s' Hheld), Hctl. simpl.
    rewrite wrap_int_id; [reflexivity|]. unfold INT_MIN. lia. }
  split.
  { rewrite Hctl.
    pose proof (in_use_count_insert (<[i := tail]> l) j tail zero_node
                  (n_nodes (PgHaCtl s))
                  (wrap_int (n_nodes (PgHaCtl s) - 1)) Hl1j) as H2.
    pose proof (in_use_count_insert l i found tail
                  (n_nodes (PgHaCtl s)) (n_nodes (PgHaCtl s)) Hi) as H1.
    rewrite Hfu in H1. simpl in H2.
    assert (in_use_count (PgHaCtl s)
            = in_use_count (mkCtl (n_nodes (PgHaCtl s)) l)) by reflexivity.
    lia. }
  split; [exact Hnames|].
  intros Huniq.
  assert (Hgone : nm ∉ in_use_names (PgHaCtl s')).
  { rewrite in_use_names_lookup. intros (p & nd & Hp & Hu & Hnx).
    destruct (Hlook p nd Hp Hu) as [Hpj [[-> ->]|[Hpi Hlp]]].
    - apply Hpj. symmetry. apply (Huniq j i tail found); auto. congruence.
    - apply Hpi. apply (Huniq p i nd found); auto. congruence. }
  split; [exact Hgone|].
  unfold del_node, delNode, bind, LWLockAcquire, gets. rewrite Hheld. simpl.
  rewrite find_node_absent.
  - eexists. split; reflexivity.
  - intros nd Hnd Hu Hnx. apply Hgone. apply in_use_names_lookup.
    apply list_elem_of_lookup in Hnd as [p Hp]. eauto.
Qed.

(** The counter is inside [0, capacity] and not below the number of
    in-use slots. *)
Lemma counter_covers_run_op op s :
  capacity_ok (PgHaCtl s) ->
  in_use_count (PgHaCtl s) <= n_nodes (PgHaCtl s) ->
  in_use_count (PgHaCtl (final_state (run_op op s)))
  <= n_nodes (PgHaCtl (final_state (run_op op s))).
Proof.
  intros Hcap Hle. pose proof (capacity_bound _ Hcap) as Hmax.
  destruct op as [nm conn self dup_ok|nm]; simpl.
  - destruct (addNode_ctl nm conn self dup_ok s)
      as [->|(_ & i & old & Hslot & ->)]; [exact Hle|].
    destruct (slot_at_range _ _ _ _ Hslot) as (Hn & Hi & Hold).
    pose proof (in_use_count_insert (nodes (PgHaCtl s)) i old
                  (mkNode nm conn (if am_master s then "m" else "s")%char
                          true self (live old) false 0)
                  (n_nodes (PgHaCtl s))
                  (wrap_int (n_nodes (PgHaCtl s) + 1)) Hold) as H1.
    simpl in H1 |- *. rewrite wrap_int_id in * by (unfold INT_MIN; lia).
    assert (in_use_count (PgHaCtl s)
            = in_use_count (mkCtl (n_nodes (PgHaCtl s)) (nodes (PgHaCtl s))))
      by reflexivity.
    destruct (in_use old); lia.
  - destruct (delNode_ctl nm s) as [->|(i & j & tail & Hfind & Hslot & ->)];
      [exact Hle|].
    destruct (find_node_lookup _ _ _ Hfind) as (found & Hi & Hfu & Hfn).
    destruct (slot_at_range _ _ _ _ Hslot) as (Hn & Hj & Htail).
    set (l := nodes (PgHaCtl s)) in *.
    assert (Hl1j : <[i := tail]> l !! j = Some tail).
    { pose proof (lookup_lt_Some _ _ _ Hi).
      destruct (decide (i = j)) as [->|Hne];
        [by apply list_lookup_insert_eq|by rewrite list_lookup_insert_ne]. }
    pose proof (in_use_count_insert (<[i := tail]> l) j tail zero_node
                  (n_nodes (PgHaCtl s))
                  (wrap_int (n_nodes (PgHaCtl s) - 1)) Hl1j) as H2.
    pose proof (in_use_count_insert l i found tail
                  (n_nodes (PgHaCtl s)) (n_nodes (PgHaCtl s)) Hi) as H1.
    rewrite Hfu in H1. simpl in H2 |- *.
    rewrite wrap_int_id in * by (unfold INT_MIN; lia).
    assert (in_use_count (PgHaCtl s)
            = in_use_count (mkCtl (n_nodes (PgHaCtl s)) l)) by reflexivity.
    lia.
Qed.

(** X5: the counter does not fall below the number of in-use slots in
    a sequence of inserts and removals none of which reads or writes
    outside the slot array or past the end of a buffer: if the counter
    covers the in-use slots before such a sequence, it covers them after
    it, whether the calls return or raise an ERROR. *)
Theorem counter_never_undercounts ops : forall s,
  capacity_ok (PgHaCtl s) ->
  in_use_count (PgHaCtl s) <= n_nodes (PgHaCtl s) ->
  in_bounds (run_ops ops s) ->
  in_use_count (PgHaCtl (final_state (run_ops ops s)))
  <= n_nodes (PgHaCtl (final_state (run_ops ops s))).
Proof.
  induction ops as [|op ops IH]; intros s Hcap Hle Hin; [exact Hle|].
  simpl in Hin |- *.
  pose proof (counter_covers_run_op op s Hcap Hle) as Hop.
  assert (Hcap' : capacity_ok (PgHaCtl (final_state (run_op op s)))).
  { unfold capacity_ok. destruct op; simpl;
      [rewrite addNode_capacity|rewrite delNode_capacity]; exact Hcap. }
  destruct (run_op op s) as [a s1|e s1|s1|s1]; simpl in *;
    [by apply IH|by apply IH|exact Hop|contradiction].
Qed.

(** X6: with the counter at the capacity, the removal of a registered
    name takes [&PgHaCtl->nodes[pgha_max_nodes]] as the tail slot, which
    is no slot of the array: the call arrives at a read past the end of
    the slot array ([Fault]);
    it has raised no ERROR, and the slots and the counter are still as
    they were when it gets there.  What the program does from there on
    is outside the model. *)
Theorem delNode_full_faults s nm :
  held_lwlocks s = [] ->
  nm ∈ in_use_names (PgHaCtl s) ->
  n_nodes (PgHaCtl s) = pgha_max_nodes (PgHaCtl s) ->
  slot_at (PgHaCtl s) (n_nodes (PgHaCtl s)) = None /\
  exists s',
    delNode nm s = Fault s' /\ PgHaCtl s' = PgHaCtl s.
Proof.
  intros Hfree Hin Hfull.
  assert (Hout : slot_at (PgHaCtl s) (n_nodes (PgHaCtl s)) = None).
  { unfold slot_at. rewrite Hfull. unfold pgha_max_nodes.
    destruct (Z.of_nat (length (nodes (PgHaCtl s))) <? 0); [reflexivity|].
    by rewrite Nat2Z.id, lookup_ge_None_2 by lia. }
  split; [exact Hout|].
  apply in_use_names_lookup in Hin as (p0 & nd0 & Hp0 & Hu0 & Hn0).
  destruct (find_node_present nm (nodes (PgHaCtl s)) 0%nat) as [i Hfind].
  { exists nd0. split; [by eapply list_elem_of_lookup_2|auto]. }
  unfold delNode, bind, LWLockAcquire, gets. rewrite Hfree. simpl.
  rewrite Hfind, Hout. eexists. split; reflexivity.
Qed.

(** X7: insert then remove.  When the slot at the counter and the slot
    after it are free, the insert of a fresh name followed by the removal
    of that name succeeds twice and brings back the counter, the lock and
    every in-use record in its slot. *)
Theorem insert_remove_round_trip s nm conn self dup_ok i old j nxt :
  held_lwlocks s = [] ->
  capacity_ok (PgHaCtl s) ->
  (forall nd, nd ∈ nodes (PgHaCtl s) -> in_use nd = true -> name nd <> nm) ->
  fits NAMEDATALEN nm = true -> fits MAXPGPATH conn = true ->
  slot_at (PgHaCtl s) (n_nodes (PgHaCtl s)) = Some (i, old) ->
  in_use old = false ->
  slot_at (PgHaCtl s) (n_nodes (PgHaCtl s) + 1) = Some (j, nxt) ->
  in_use nxt = false ->
  exists s1 s2,
    addNode nm conn self dup_ok s = Returned true s1 /\
    delNode nm s1 = Returned true s2 /\
    held_lwlocks s2 = [] /\
    n_nodes (PgHaCtl s2) = n_nodes (PgHaCtl s) /\
    forall p nd, in_use nd = true ->
      (nodes (PgHaCtl s2) !! p = Some nd <-> nodes (PgHaCtl s) !! p = Some nd).
Proof.
  intros Hfree Hcap Hfresh Hnm Hconn Hslot Hold Hnext Hnxt.
  pose proof (find_node_absent nm _ 0%nat Hfresh) as Hnone.
  destruct (addNode_fresh s nm conn self dup_ok i old Hfree Hnone Hslot
              Hnm Hconn) as (s1 & Hrun1 & Hheld1 & _ & Hctl1).
  destruct (slot_at_range _ _ _ _ Hslot) as (Hn & Hi & Hiold).
  destruct (slot_at_range _ _ _ _ Hnext) as (Hn' & Hj & Hjnxt).
  pose proof (capacity_bound _ Hcap) as Hmax.
  pose proof (lookup_lt_Some _ _ _ Hiold) as Hlti.
  assert (Hij : i <> j) by lia.
  set (l := nodes (PgHaCtl s)) in *.
  set (new := mkNode nm conn (if am_master s then "m" else "s")%char
                     true self (live old) false 0) in *.
  assert (Hn1 : n_nodes (PgHaCtl s1) = n_nodes (PgHaCtl s) + 1).
  { rewrite Hctl1. simpl. apply wrap_int_id. unfold INT_MIN. lia. }
  assert (Hfind : find_node nm (nodes (PgHaCtl s1)) 0 = Some i).
  { destruct (find_node_present nm (nodes (PgHaCtl s1)) 0%nat) as [k Hk].
    { exists new. split; [|split; reflexivity].
      eapply list_elem_of_lookup_2. rewrite Hctl1. simpl.
      by apply list_lookup_insert_eq. }
    destruct (find_node_lookup _ _ _ Hk) as (nd & Hl & Hu & Hnn).
    rewrite Hctl1 in Hl. simpl in Hl.
    apply list_lookup_insert_Some in Hl as [(<- & _)|(Hne & Hl)];
      [exact Hk|].
    exfalso. apply (Hfresh nd); auto. by eapply list_elem_of_lookup_2. }
  assert (Hslot1 : slot_at (PgHaCtl s1) (n_nodes (PgHaCtl s1))
                   = Some (j, nxt)).
  { rewrite Hn1. unfold slot_at in *.
    destruct (n_nodes (PgHaCtl s) + 1 <? 0); [discriminate|].
    rewrite Hctl1. simpl. rewrite <- Hj.
    rewrite list_lookup_insert_ne by done. fold l. rewrite Hjnxt.
    by rewrite Hj. }
  destruct (delNode_found s1 nm i j nxt Hheld1 Hfind Hslot1)
    as (s2 & Hrun2 & Hheld2 & Hctl2).
  exists s1, s2. split; [exact Hrun1|]. split; [exact Hrun2|].
  split; [exact Hheld2|]. split.
  { rewrite Hctl2. simpl. rewrite Hn1.
    rewrite wrap_int_id by (unfold INT_MIN; lia). lia. }
  intros p nd Hu. rewrite Hctl2, Hctl1. simpl. fold l. split.
  - intros Hp.
    apply list_lookup_insert_Some in Hp as [(<- & <- & _)|(Hne & Hp)];
      [discriminate|].
    apply list_lookup_insert_Some in Hp as [(<- & <- & _)|(Hne' & Hp)];
      [congruence|].
    by rewrite list_lookup_insert_ne in Hp.
  - intros Hp.
    assert (p <> i) by (intros ->; congruence).
    assert (p <> j) by (intros ->; congruence).
    by rewrite !list_lookup_insert_ne.
Qed.

End RegistryMore.

Section LocalFacts.

Context {World : Type}.
Implicit Types s : Backend World.

Lemma same_process_refl s : same_process s s.
Proof. unfold same_process. repeat split. Qed.

Lemma same_process_trans s1 s2 s3 :
  same_process s1 s2 -> same_process s2 s3 -> same_process s1 s3.
Proof. unfold same_process. intuition congruence. Qed.

Lemma local_bind {A B} (m : M World A) (k : A -> M World B) :
  registry_local World m -> (forall a, registry_local World (k a)) ->
  registry_local World (bind m k).
Proof.
  intros Hm Hk s. unfold bind. specialize (Hm s).
  destruct (m s) as [a s1|e s1|s1|s1]; simpl in *; try exact Hm.
  eapply same_process_trans; [exact Hm|apply Hk].
Qed.

Lemma local_pure {A} (m : M World A) :
  (forall s, final_state (m s) = s) -> registry_local World m.
Proof. intros H s. rewrite H. apply same_process_refl. Qed.

Lemma local_LWLockAcquire mode : registry_local World (LWLockAcquire mode).
Proof.
  intros s. unfold LWLockAcquire.
  destruct (held_lwlocks s) as [|h0 h], mode; simpl;
    repeat match goal with
           | |- context [if ?b then _ else _] => destruct b
           end;
    unfold same_process; simpl; repeat split.
Qed.

Lemma local_LWLockRelease : registry_local World LWLockRelease.
Proof.
  intros s. unfold LWLockRelease.
  destruct (held_lwlocks s); unfold same_process; simpl; repeat split.
Qed.

Lemma local_ereport_LOG m : registry_local World (ereport_LOG m).
Proof. intros s. unfold same_process. simpl. repeat split. Qed.

Lemma local_set_PgHaCtl c : registry_local World (modify (set_PgHaCtl c)).
Proof. intros s. unfold same_process. simpl. repeat split. Qed.

Lemma local_debug_show_from l :
  forall i, registry_local World (debug_show_from i l).
Proof.
  induction l as [|n l IH]; intros i; simpl; [by apply local_pure|].
  apply local_bind; [|intros _; apply IH].
  destruct (in_use n); [apply local_ereport_LOG|by apply local_pure].
Qed.

Lemma local_debug_show : registry_local World debug_show.
Proof.
  unfold debug_show.
  apply local_bind; [apply local_LWLockAcquire|intros _].
  apply local_bind; [by apply local_pure|intros c].
  apply local_bind; [apply local_debug_show_from|intros _].
  apply local_LWLockRelease.
Qed.

Lemma local_epilogue :
  registry_local World (LWLockRelease ;; debug_show ;; ret true).
Proof.
  apply local_bind; [apply local_LWLockRelease|intros _].
  apply local_bind; [apply local_debug_show|intros _]. by apply local_pure.
Qed.

Lemma local_addNode nm conn self dup_ok :
  registry_local World (addNode nm conn self dup_ok).
Proof.
  unfold addNode.
  apply local_bind; [apply local_LWLockAcquire|intros _].
  apply local_bind; [by apply local_pure|intros c].
  destruct (find_node nm (nodes c) 0).
  - destruct (negb dup_ok); by apply local_pure.
  - destruct (slot_at c (n_nodes c)) as [[i old]|]; [|by apply local_pure].
    destruct (negb (fits NAMEDATALEN nm && fits MAXPGPATH conn));
      [by apply local_pure|].
    apply local_bind; [by apply local_pure|intros master].
    apply local_bind; [apply local_set_PgHaCtl|intros _].
    apply local_epilogue.
Qed.

Lemma local_delNode nm : registry_local World (delNode nm).
Proof.
  unfold delNode.
  apply local_bind; [apply local_LWLockAcquire|intros _].
  apply local_bind; [by apply local_pure|intros c].
  destruct (find_node nm (nodes c) 0); [|by apply local_pure].
  destruct (slot_at c (n_nodes c)) as [[j tail]|]; [|by apply local_pure].
  apply local_bind; [apply local_set_PgHaCtl|intros _].
  apply local_epilogue.
Qed.

Lemma local_get_hanode_count : registry_local World get_hanode_count.
Proof.
  unfold get_hanode_count.
  apply local_bind; [apply local_LWLockAcquire|intros _].
  apply local_bind; [by apply local_pure|intros c].
  apply local_bind; [apply local_LWLockRelease|intros _].
  by apply local_pure.
Qed.

Lemma local_join_node fcinfo nm conn :
  registry_local World (join_node fcinfo nm conn).
Proof.
  unfold join_node.
  apply local_bind; [by apply local_pure|intros master].
  apply local_bind; [destruct (negb master); by apply local_pure|intros _].
  apply local_bind;
    [destruct (negb (rsinfo_is_ReturnSetInfo fcinfo)); by apply local_pure
    |intros _].
  apply local_bind;
    [destruct (negb (allows_SFRM_Materialize fcinfo)
               || negb (has_expectedDesc fcinfo)); by apply local_pure
    |intros _].
  apply local_bind;
    [destruct (negb (result_is_composite fcinfo)); by apply local_pure
    |intros _].
  apply local_bind; [apply local_addNode|intros _].
  apply local_bind; [apply local_LWLockAcquire|intros _].
  apply local_bind; [by apply local_pure|intros c].
  apply local_bind; [apply local_LWLockRelease|intros _].
  by apply local_pure.
Qed.

(** X9: the registry functions stay inside the registry.  However a call
    of [addNode], [delNode], [get_hanode_count], [debug_show] or
    [join_node] ends, the role, the replication flag, the signal flags,
    the settings, the recorded steps and the outside world are as before
    it: only the control block, the lock and the server log can differ,
    and no server is contacted. *)
Theorem registry_calls_are_local s :
  (forall nm conn self dup_ok,
     same_process s (final_state (addNode nm conn self dup_ok s))) /\
  (forall nm, same_process s (final_state (delNode nm s))) /\
  same_process s (final_state (get_hanode_count s)) /\
  same_process s (final_state (debug_show s)) /\
  (forall fcinfo nm conn,
     same_process s (final_state (join_node fcinfo nm conn s))).
Proof.
  split; [intros; apply local_addNode|].
  split; [intros; apply local_delNode|].
  split; [apply local_get_hanode_count|].
  split; [apply local_debug_show|].
  intros; apply local_join_node.
Qed.

End LocalFacts.

Section DumpAndJoin.

Context {World : Type}.
Implicit Types s : Backend World.

Lemma debug_show_from_lines l : forall i s,
  exists s' lines,
    debug_show_from i l s = Returned tt s' /\
    untouched s s' /\
    server_log s' = server_log s ++ lines /\
    length lines = length (filter (fun n => in_use n = true) l) /\
    forall m, m ∈ lines <->
              exists k nd, l !! k = Some nd /\ in_use nd = true /\
                m = log_node (i + k) (name nd) (conninfo nd) (type nd).
Proof.
  induction l as [|n l IH]; intros i s.
  - exists s, []. simpl. split; [reflexivity|].
    split; [unfold untouched; repeat split|].
    split; [by rewrite app_nil_r|]. split; [reflexivity|].
    intros m. split; [intros H; inversion H|].
    intros (k & nd & Hk & _). discriminate.
  - simpl. unfold bind. rewrite filter_in_use_cons.
    destruct (in_use n) eqn:Hu; simpl.
    + destruct (IH (S i)
                  (add_log (log_node i (name n) (conninfo n) (type n)) s))
        as (s' & lines & -> & U & Hlog & Hlen & Hmem).
      exists s', (log_node i (name n) (conninfo n) (type n) :: lines).
      split; [reflexivity|].
      split; [unfold untouched in *; simpl in U; intuition congruence|].
      split; [rewrite Hlog; simpl; by rewrite <- app_assoc|].
      split; [simpl; by rewrite Hlen|].
      intros m. rewrite elem_of_cons, Hmem. split.
      * intros [->|(k & nd & Hk & Hnd & ->)].
        -- exists 0%nat, n. rewrite Nat.add_0_r. auto.
        -- exists (S k), nd. replace (i + S k)%nat with (S i + k)%nat by lia.
           auto.
      * intros (k & nd & Hk & Hnd & ->). destruct k as [|k].
        -- left. simpl in Hk. injection Hk as <-. by rewrite Nat.add_0_r.
        -- right. exists k, nd.
           replace (i + S k)%nat with (S i + k)%nat by lia. auto.
    + destruct (IH (S i) s) as (s' & lines & -> & U & Hlog & Hlen & Hmem).
      exists s', lines. split; [reflexivity|]. split; [exact U|].
      split; [exact Hlog|]. split; [exact Hlen|].
      intros m. rewrite Hmem. split.
      * intros (k & nd & Hk & Hnd & ->). exists (S k), nd.
        replace (i + S k)%nat with (S i + k)%nat by lia. auto.
      * intros (k & nd & Hk & Hnd & ->). destruct k as [|k].
        -- simpl in Hk. injection Hk as <-. congruence.
        -- exists k, nd. replace (i + S k)%nat with (S i + k)%nat by lia.
           auto.
Qed.

(** X8: [debug_show], entered with the lock free, returns with the lock
    free and the control block untouched, and appends to the server log
    one line per in-use slot and nothing else: a line for index [i]
    appears exactly when slot [i] is in use, and it shows that slot's
    name, connection string and type. *)
Theorem debug_show_lists_members s :
  held_lwlocks s = [] ->
  exists s' lines,
    debug_show s = Returned tt s' /\
    PgHaCtl s' = PgHaCtl s /\
    held_lwlocks s' = [] /\
    server_log s' = server_log s ++ lines /\
    Z.of_nat (length lines) = in_use_count (PgHaCtl s) /\
    forall m, m ∈ lines <-> is_node_line (nodes (PgHaCtl s)) m.
Proof.
  intros Hfree. unfold debug_show, bind, LWLockAcquire, gets.
  rewrite Hfree. simpl.
  destruct (debug_show_from_lines (nodes (PgHaCtl s)) 0%nat
              (set_held_lwlocks [LW_SHARED] s))
    as (s1 & lines & -> & U & Hlog & Hlen & Hmem).
  destruct U as (U1 & U2 & _). simpl in *.
  unfold LWLockRelease. rewrite U2.
  exists (set_held_lwlocks [] s1), lines. simpl.
  split; [reflexivity|]. split; [exact U1|]. split; [reflexivity|].
  split; [exact Hlog|]. split; [unfold in_use_count; by rewrite Hlen|].
  intros m. rewrite Hmem. unfold is_node_line. reflexivity.
Qed.

(** X10: in a master, [join_node] checks how it is called before it
    touches the registry: without a [ReturnSetInfo], without materialize
    mode or an expected descriptor, or with a result type that is not a
    row type, it leaves through the matching ERROR, in this order of
    precedence, in the very state it was called in. *)
Theorem join_node_rejects_context fcinfo nm conn s :
  am_master s = true ->
  call_ok fcinfo = false ->
  join_node fcinfo nm conn s =
    Raised (if negb (rsinfo_is_ReturnSetInfo fcinfo)
            then set_valued_function_in_wrong_context
            else if negb (allows_SFRM_Materialize fcinfo)
                    || negb (has_expectedDesc fcinfo)
                 then materialize_mode_required
                 else return_type_must_be_a_row_type) s.
Proof.
  intros Hm Hbad. unfold join_node, bind, gets. rewrite Hm. simpl.
  unfold call_ok in Hbad.
  destruct (rsinfo_is_ReturnSetInfo fcinfo); [|reflexivity].
  destruct (allows_SFRM_Materialize fcinfo); [|reflexivity].
  destruct (has_expectedDesc fcinfo); [|reflexivity].
  destruct (result_is_composite fcinfo); [discriminate|reflexivity].
Qed.

(** X11: in a master, a [join_node] for a name that is already
    registered does not come back: the duplicate-tolerant insert returns
    holding the exclusive lock, and the shared request that follows in the
    same process waits for it.  The control block is unchanged. *)
Theorem join_node_rejoin_blocks fcinfo nm conn s :
  am_master s = true ->
  call_ok fcinfo = true ->
  held_lwlocks s = [] ->
  nm ∈ in_use_names (PgHaCtl s) ->
  join_node fcinfo nm conn s = Blocked (set_held_lwlocks [LW_EXCLUSIVE] s) /\
  PgHaCtl (final_state (join_node fcinfo nm conn s)) = PgHaCtl s.
Proof.
  intros Hm Hcall Hfree Hin.
  apply in_use_names_lookup in Hin as (p & nd & Hp & Hu & Hn).
  assert (Hrun : addNode nm conn false true s
                 = Returned true (set_held_lwlocks [LW_EXCLUSIVE] s)).
  { apply addNode_tolerated_holds_lock; [exact Hfree|].
    exists nd. split; [by eapply list_elem_of_lookup_2|auto]. }
  unfold call_ok in Hcall.
  apply andb_prop in Hcall as [Hcall H4].
  apply andb_prop in Hcall as [Hcall H3].
  apply andb_prop in Hcall as [H1 H2].
  assert (Hb : join_node fcinfo nm conn s
               = Blocked (set_held_lwlocks [LW_EXCLUSIVE] s)).
  { unfold join_node, bind, gets. rewrite Hm, H1, H2, H3, H4. simpl.
    rewrite Hrun. reflexivity. }
  split; [exact Hb|]. rewrite Hb. reflexivity.
Qed.

End DumpAndJoin.

(** * Further properties of the worker *)

Section SettingsFacts.

Lemma fits_ltb size str :
  fits size str = negb (size <=? Z.of_nat (String.length str)).
Proof. unfold fits. apply Z.ltb_antisym. Qed.

(** X13: the two check hooks apply the same test.  Each accepts NULL,
    the empty string and every value shorter than [NAMEDATALEN], and
    rejects every other value; so an accepted node name fits the [name]
    member of a slot and an accepted connection string fits the
    [conninfo] member.  On rejection the message of the node-name hook
    quotes [NAMEDATALEN]; the message of the connection-string hook
    quotes [MAXPGPATH], which is not the bound it applied. *)
Theorem check_hooks_bound_lengths v :
  (fst (check_pgha_node_name v) = true <->
   forall str, v = Some str -> fits NAMEDATALEN str = true) /\
  fst (check_pgha_conninfo v) = fst (check_pgha_node_name v) /\
  (fst (check_pgha_conninfo v) = true ->
   forall str, v = Some str -> fits MAXPGPATH str = true) /\
  (fst (check_pgha_node_name v) = false ->
   msg_arg <$> snd (check_pgha_node_name v) = Some NAMEDATALEN) /\
  (fst (check_pgha_conninfo v) = false ->
   msg_arg <$> snd (check_pgha_conninfo v) = Some MAXPGPATH).
Proof.
  assert (Hsmall : forall str, fits NAMEDATALEN str = true ->
                               fits MAXPGPATH str = true).
  { unfold fits, NAMEDATALEN, MAXPGPATH. intros str H.
    apply Z.ltb_lt in H. apply Z.ltb_lt. lia. }
  destruct v as [str|]; simpl.
  - destruct (String.eqb_spec str "") as [->|Hne]; simpl.
    + split; [split; [intros _ x [= <-]; reflexivity|reflexivity]|].
      split; [reflexivity|]. split; [intros _ x [= <-]; reflexivity|].
      split; discriminate.
    + destruct (NAMEDATALEN <=? Z.of_nat (String.length str)) eqn:E; simpl.
      * split; [split; [discriminate|]|].
        { intros H. specialize (H str eq_refl).
          rewrite fits_ltb, E in H. discriminate. }
        split; [reflexivity|]. split; [discriminate|].
        split; reflexivity.
      * split; [split; [|reflexivity]|].
        { intros _ x [= <-]. by rewrite fits_ltb, E. }
        split; [reflexivity|]. split; [|split; discriminate].
        intros _ x [= <-]. apply Hsmall. by rewrite fits_ltb, E.
  - split; [split; [discriminate|reflexivity]|].
    split; [reflexivity|]. split; [discriminate|]. split; discriminate.
Qed.

End SettingsFacts.

Section WorkerFacts.

Context {World : Type} {env : PgEnv World}.
Implicit Types s : Backend World.

(** X12: a worker whose mandatory parameters are not set does not start:
    with [hot_standby] off, or [pgha.my_conninfo] NULL or empty, or
    [pgha.node_name] NULL or empty, [PgHaMain] leaves through the ERROR
    of the first failing test, in the state it was started in: nothing is
    registered and no round is run. *)
Theorem PgHaMain_refuses_bad_parameters fuel s :
  EnableHotStandby s = false \/
  null_or_empty (pgha_my_conninfo s) = true \/
  null_or_empty (pgha_node_name s) = true ->
  PgHaMain fuel s =
    Raised (if negb (EnableHotStandby s) then hot_standby_must_be_enabled
            else if null_or_empty (pgha_my_conninfo s)
                 then my_conninfo_must_be_specified
                 else node_name_must_be_specified) s.
Proof.
  intros Hbad. unfold PgHaMain, checkParameter, bind, gets.
  destruct (EnableHotStandby s); simpl; [|reflexivity].
  destruct (null_or_empty (pgha_my_conninfo s)); simpl; [reflexivity|].
  destruct (null_or_empty (pgha_node_name s)); simpl; [reflexivity|].
  destruct Hbad as [H|[H|H]]; discriminate.
Qed.

Lemma checkParameter_passes s nm conn :
  EnableHotStandby s = true ->
  pgha_node_name s = Some nm -> nm <> "" ->
  pgha_my_conninfo s = Some conn -> conn <> "" ->
  checkParameter s = Returned tt s.
Proof.
  intros Hhs Hnm Hne Hconn Hce. unfold checkParameter, bind, gets.
  rewrite Hhs. simpl. rewrite Hconn. simpl.
  destruct (String.eqb_spec conn ""); [congruence|]. simpl.
  rewrite Hnm. simpl.
  destruct (String.eqb_spec nm ""); [congruence|]. reflexivity.
Qed.

(** X14: a worker started in recovery, with its parameters set and
    accepted by the check hooks, the lock free, its name not yet
    registered and the counter inside the array, writes its own record
    (type 's', [myself] set, failure counter 0) into the slot at the
    counter and returns [true] at once: no round is run, no server is
    contacted, and nothing but the control block and the log has
    changed. *)
Theorem PgHaMain_standby_registers_and_exits fuel s nm conn i old :
  am_master s = false ->
  EnableHotStandby s = true ->
  pgha_node_name s = Some nm -> nm <> "" ->
  pgha_my_conninfo s = Some conn -> conn <> "" ->
  fst (check_pgha_node_name (pgha_node_name s)) = true ->
  fst (check_pgha_conninfo (pgha_my_conninfo s)) = true ->
  held_lwlocks s = [] ->
  (forall nd, nd ∈ nodes (PgHaCtl s) -> in_use nd = true -> name nd <> nm) ->
  slot_at (PgHaCtl s) (n_nodes (PgHaCtl s)) = Some (i, old) ->
  exists s',
    PgHaMain fuel s = Returned (Some true) s' /\
    nodes (PgHaCtl s') !! i =
      Some (mkNode nm conn "s" true true (live old) false 0) /\
    held_lwlocks s' = [] /\
    same_process s s'.
Proof.
  intros Hm Hhs Hnm Hne Hconn Hce Hck1 Hck2 Hfree Hfresh Hslot.
  pose proof (find_node_absent nm _ 0%nat Hfresh) as Hnone.
  assert (Hfit1 : fits NAMEDATALEN nm = true).
  { rewrite Hnm in Hck1. simpl in Hck1. rewrite fits_ltb.
    destruct (String.eqb_spec nm ""); [congruence|]. simpl in Hck1.
    destruct (NAMEDATALEN <=? Z.of_nat (String.length nm));
      [discriminate|reflexivity]. }
  assert (Hfit2 : fits MAXPGPATH conn = true).
  { rewrite Hconn in Hck2. simpl in Hck2.
    destruct (String.eqb_spec conn ""); [congruence|]. simpl in Hck2.
    destruct (NAMEDATALEN <=? Z.of_nat (String.length conn)) eqn:E;
      [discriminate|].
    unfold fits, NAMEDATALEN, MAXPGPATH in *.
    apply Z.leb_gt in E. apply Z.ltb_lt. lia. }
  destruct (addNode_fresh s nm conn true false i old Hfree Hnone Hslot
              Hfit1 Hfit2) as (s1 & Hrun & Hheld & Hrec & Hctl).
  pose proof (local_addNode nm conn true false s) as Hloc.
  rewrite Hrun in Hloc. simpl in Hloc.
  destruct (slot_at_range _ _ _ _ Hslot) as (_ & _ & Hold).
  exists s1. unfold PgHaMain, bind.
  rewrite (checkParameter_passes s nm conn Hhs Hnm Hne Hconn Hce).
  unfold gets. rewrite Hnm, Hconn. simpl. rewrite Hrun.
  assert (Hm1 : am_master s1 = false)
    by (unfold am_master in *; by rewrite Hrec).
  rewrite Hm1. simpl. split; [reflexivity|]. split.
  { rewrite Hctl, Hm. simpl. apply list_lookup_insert_eq.
    by eapply lookup_lt_Some. }
  split; [exact Hheld|exact Hloc].
Qed.

(** X15: a pending shutdown request ends [PgHaMasterLoop] at its first
    test: it returns [true] having recorded the shutdown check only; it
    has not waited, counted, pinged or actuated, and the control block
    and the lock are as before. *)
Theorem master_loop_stops_on_sigterm fuel s :
  got_sigterm s = true ->
  exists s',
    PgHaMasterLoop (S fuel) s = Returned (Some true) s' /\
    steps s' = steps s ++ [StShutdownCheck] /\
    PgHaCtl s' = PgHaCtl s /\
    held_lwlocks s' = held_lwlocks s /\
    world s' = snd (signals_between (world s)).
Proof.
  intros Hterm.
  unfold PgHaMasterLoop, master_while, bind, ereport_LOG. simpl.
  unfold bind, call. simpl.
  destruct (signals_between (world s)) as [[t h] w]. simpl.
  unfold run_handlers, bind, pgha_sigterm, pgha_sighup, modify, gets.
  destruct t, h; simpl; rewrite ?Hterm; simpl;
    eexists; (split; [reflexivity|]); simpl; repeat split.
Qed.

(** X16: when the wait of a round reports that the postmaster has died,
    [PgHaMasterLoop] returns [false] from that round: after the shutdown
    check nothing more is recorded (no reload, count, sweep, evaluation or
    actuation), and the control block and the lock are as before. *)
Theorem master_loop_postmaster_death fuel s sg w1 wk w2 :
  got_sigterm s = false ->
  signals_between (world s) = (sg, w1) ->
  fst sg = false ->
  WaitLatch (pgha_keepalives_time s * 1000) w1 = (wk, w2) ->
  wl_postmaster_death wk = true ->
  exists s',
    PgHaMasterLoop (S fuel) s = Returned (Some false) s' /\
    steps s' = steps s ++ [StShutdownCheck] /\
    PgHaCtl s' = PgHaCtl s /\
    held_lwlocks s' = held_lwlocks s /\
    world s' = w2.
Proof.
  intros Hterm Hsig Hnt Hwait Hdeath.
  unfold PgHaMasterLoop, master_while, bind, ereport_LOG. simpl.
  unfold bind, call. simpl. rewrite Hsig. destruct sg as [t h].
  simpl in Hnt. subst t. simpl.
  unfold run_handlers, bind, pgha_sigterm, pgha_sighup, modify, gets.
  destruct h; simpl; rewrite Hterm; simpl;
    unfold master_cycle_with, bind, gets, call; simpl; rewrite Hwait; simpl;
    unfold run_handlers, bind, pgha_sigterm, pgha_sighup, modify;
    destruct (wake_sigterm wk), (wake_sighup wk); simpl;
    rewrite Hdeath; eexists; (split; [reflexivity|]); simpl; repeat split.
Qed.

End WorkerFacts.

Section MembershipFacts.

Context {World : Type} {env : PgEnv World}.
Implicit Types s : Backend World.

Lemma same_members_refl c : same_members c c.
Proof. split; reflexivity. Qed.

Lemma same_members_trans c1 c2 c3 :
  same_members c1 c2 -> same_members c2 c3 -> same_members c1 c3.
Proof. intros [A1 A2] [B1 B2]. split; congruence. Qed.

Lemma members_bind {A B} (m : M World A) (k : A -> M World B) :
  keeps_members World m -> (forall a, keeps_members World (k a)) ->
  keeps_members World (bind m k).
Proof.
  intros Hm Hk s. unfold bind. specialize (Hm s).
  destruct (m s) as [a s1|e s1|s1|s1]; simpl in *; try exact Hm.
  eapply same_members_trans; [exact Hm|apply Hk].
Qed.

Lemma members_of_keeps_ctl {A} (m : M World A) :
  keeps_ctl World m -> keeps_members World m.
Proof. intros H s. rewrite H. apply same_members_refl. Qed.

Lemma members_same_ctl {A} (m : M World A) :
  (forall s, PgHaCtl (final_state (m s)) = PgHaCtl s) ->
  keeps_members World m.
Proof. intros H. by apply members_of_keeps_ctl. Qed.

Lemma members_call {A} (f : World -> A * World) :
  keeps_members World (call f).
Proof.
  apply members_same_ctl. intros s. unfold call.
  destruct (f (world s)). reflexivity.
Qed.

Lemma fmap_alter_retry (f : PgHaNode -> PgHaNode) (l : list PgHaNode) :
  forall i : nat,
  (forall n, set_retry_count 0 (f n) = set_retry_count 0 n) ->
  set_retry_count 0 <$> alter f i l = set_retry_count 0 <$> l.
Proof.
  induction l as [|x l IH]; intros i Hf; [reflexivity|].
  destruct i as [|i]; simpl.
  - by rewrite Hf.
  - f_equal. by apply IH.
Qed.

Lemma members_update_node i (f : PgHaNode -> PgHaNode) :
  (forall n, set_retry_count 0 (f n) = set_retry_count 0 n) ->
  keeps_members World (update_node i f).
Proof.
  intros Hf s. unfold update_node, modify. simpl.
  split; [reflexivity|]. simpl. by apply fmap_alter_retry.
Qed.

Lemma members_execSQL conn sql : keeps_members World (execSQL conn sql).
Proof.
  apply members_same_ctl. intros s.
  destruct (execSQL_returns conn sql s) as (r & s' & -> & U & _).
  exact U.
Qed.

Lemma members_heartbeat_slot i : keeps_members World (heartbeat_slot i).
Proof.
  unfold heartbeat_slot.
  apply members_bind; [by apply members_same_ctl|intros c].
  destruct (nodes c !! i) as [node|]; [|by apply members_same_ctl].
  apply members_bind; [by apply members_same_ctl|intros master].
  destruct (negb (pinged master node)); [by apply members_same_ctl|].
  apply members_bind; [apply members_execSQL|intros r].
  destruct (negb r); apply members_update_node; intros n; reflexivity.
Qed.

Lemma members_for_loop (body : nat -> M World unit) count :
  (forall i, keeps_members World (body i)) ->
  forall from, keeps_members World (for_loop body from count).
Proof.
  intros Hb. induction count as [|k IH]; intros from; simpl.
  - by apply members_same_ctl.
  - apply members_bind; [apply Hb|intros _; apply IH].
Qed.

Lemma members_doHeartbeat : keeps_members World doHeartbeat.
Proof.
  unfold doHeartbeat.
  apply members_bind;
    [apply members_of_keeps_ctl, keeps_ctl_LWLockAcquire|intros _].
  apply members_bind; [by apply members_same_ctl|intros c].
  apply members_bind;
    [apply members_for_loop, members_heartbeat_slot|intros _].
  apply members_of_keeps_ctl, keeps_ctl_LWLockRelease.
Qed.

Lemma members_get_hanode_count : keeps_members World get_hanode_count.
Proof.
  unfold get_hanode_count.
  apply members_bind;
    [apply members_of_keeps_ctl, keeps_ctl_LWLockAcquire|intros _].
  apply members_bind; [by apply members_same_ctl|intros c].
  apply members_bind;
    [apply members_of_keeps_ctl, keeps_ctl_LWLockRelease|intros _].
  by apply members_same_ctl.
Qed.

Lemma members_changeToAsync : keeps_members World changeToAsync.
Proof.
  unfold changeToAsync.
  apply members_bind; [by apply members_same_ctl|intros _].
  apply members_bind; [by apply members_same_ctl|intros my].
  destruct my as [conn|]; [|by apply members_same_ctl].
  apply members_bind; [apply members_execSQL|intros ok].
  apply members_bind;
    [destruct (negb ok); by apply members_same_ctl|intros _].
  apply members_bind; [apply members_call|intros r].
  destruct (negb (r =? 0)); by apply members_same_ctl.
Qed.

Lemma members_run_handlers t h : keeps_members World (run_handlers t h).
Proof.
  unfold run_handlers.
  apply members_bind; [destruct t; by apply members_same_ctl|intros _].
  destruct h; by apply members_same_ctl.
Qed.

Lemma members_master_cycle : keeps_members World master_cycle.
Proof.
  unfold master_cycle.
  apply members_bind; [by apply members_same_ctl|intros timeout].
  apply members_bind; [apply members_call|intros w].
  apply members_bind; [apply members_run_handlers|intros _].
  destruct (wl_postmaster_death w); [by apply members_same_ctl|].
  apply members_bind; [by apply members_same_ctl|intros hup].
  apply members_bind.
  { destruct hup; [|by apply members_same_ctl].
    apply members_bind; [by apply members_same_ctl|intros _].
    apply members_bind; [by apply members_same_ctl|intros _].
    apply members_bind; [apply members_call|intros g].
    by apply members_same_ctl. }
  intros _.
  apply members_bind; [apply members_get_hanode_count|intros n].
  apply members_bind; [by apply members_same_ctl|intros _].
  apply members_bind; [|intros _; by apply members_same_ctl].
  destruct (1 <? n); [|by apply members_same_ctl].
  apply members_bind; [by apply members_same_ctl|intros _].
  apply members_bind; [apply members_doHeartbeat|intros _].
  apply members_bind; [by apply members_same_ctl|intros syn].
  destruct syn; [|by apply members_same_ctl].
  apply members_bind; [by apply members_same_ctl|intros healthy].
  apply members_bind; [by apply members_same_ctl|intros _].
  destruct (negb healthy); [|by apply members_same_ctl].
  apply members_bind; [by apply members_same_ctl|intros _].
  apply members_changeToAsync.
Qed.

Lemma members_master_while fuel : keeps_members World (master_while fuel).
Proof.
  induction fuel as [|k IH]; simpl; [by apply members_same_ctl|].
  apply members_bind; [apply members_call|intros sg].
  apply members_bind; [apply members_run_handlers|intros _].
  apply members_bind; [by apply members_same_ctl|intros term].
  apply members_bind; [by apply members_same_ctl|intros _].
  destruct term; [by apply members_same_ctl|].
  apply members_bind; [apply members_master_cycle|intros r].
  destruct r; [by apply members_same_ctl|exact IH].
Qed.

Lemma in_use_names_members c c' :
  same_members c c' -> in_use_names c' = in_use_names c.
Proof.
  intros [_ H].
  assert (Hz : forall l : list PgHaNode,
             name <$> filter (fun n => in_use n = true) l =
             name <$> filter (fun n => in_use n = true)
                             (set_retry_count 0 <$> l)).
  { induction l as [|x l IH]; [reflexivity|].
    rewrite fmap_cons, !filter_in_use_cons.
    change (in_use (set_retry_count 0 x)) with (in_use x).
    destruct (in_use x); rewrite ?fmap_cons, IH; reflexivity. }
  unfold in_use_names. rewrite (Hz (nodes c')), (Hz (nodes c)).
  by rewrite H.
Qed.

(** X17: the coordinator never changes the membership.  Whatever the
    environment does and however [PgHaMasterLoop] ends, after any number
    of rounds the counter is as before, the array has the same slots, and
    every slot has the same name, connection string, type and flags: at
    most the failure counters differ.  The names in use are therefore the
    same. *)
Theorem coordinator_keeps_members fuel s :
  let c := PgHaCtl s in
  let c' := PgHaCtl (final_state (PgHaMasterLoop fuel s)) in
  n_nodes c' = n_nodes c /\
  length (nodes c') = length (nodes c) /\
  (forall i nd', nodes c' !! i = Some nd' ->
     exists nd, nodes c !! i = Some nd /\
                set_retry_count (retry_count nd) nd' = nd) /\
  in_use_names c' = in_use_names c.
Proof.
  simpl.
  assert (H : same_members (PgHaCtl s)
                (PgHaCtl (final_state (PgHaMasterLoop fuel s)))).
  { apply (members_bind (ereport_LOG log_entered_master_mode)
             (fun _ => master_while fuel)).
    - by apply members_same_ctl.
    - intros _. apply members_master_while. }
  pose proof (in_use_names_members _ _ H) as Hnames.
  destruct H as [Hn Hl].
  split; [exact Hn|]. split.
  { rewrite <- (length_fmap (set_retry_count 0) (nodes (PgHaCtl s))), <- Hl.
    by rewrite length_fmap. }
  split; [|exact Hnames].
  intros i nd' Hi.
  assert (Hz : (set_retry_count 0 <$> nodes (PgHaCtl s)) !! i
               = Some (set_retry_count 0 nd'))
    by (rewrite <- Hl, list_lookup_fmap, Hi; reflexivity).
  rewrite list_lookup_fmap in Hz.
  destruct (nodes (PgHaCtl s) !! i) as [nd|]; [|discriminate].
  exists nd. split; [reflexivity|].
  destruct nd, nd'. unfold set_retry_count in *. simpl in *.
  injection Hz; intros; subst; reflexivity.
Qed.

End MembershipFacts.

Section ProbeFacts.

Context {World : Type} {env : PgEnv World}.
Implicit Types s : Backend World.

(** X18: [execSQL] always returns, and it answers [true] exactly when
    [PQconnectdb] gave a connection object and the status of the result
    of [PQexec] is [PGRES_TUPLES_OK] or [PGRES_COMMAND_OK].  It writes one
    line to the server log when it answers [false] and none otherwise,
    and it leaves the control block, the lock, the flags and the recorded
    steps alone. *)
Theorem execSQL_result conn sql s :
  exists r s',
    execSQL conn sql s = Returned r s' /\
    untouched s s' /\
    (r = true <->
     exists c w res w',
       PQconnectdb conn (world s) = (Some c, w) /\
       PQexec c sql w = (res, w') /\
       (PQresultStatus res = PGRES_TUPLES_OK \/
        PQresultStatus res = PGRES_COMMAND_OK)) /\
    (r = true -> server_log s' = server_log s) /\
    (r = false -> exists m, server_log s' = server_log s ++ [m]).
Proof.
  unfold execSQL, bind, call, call_, ereport_LOG, ret, untouched.
  destruct (PQconnectdb conn (world s)) as [[c|] w] eqn:Hc; simpl.
  - destruct (PQexec c sql w) as [res w'] eqn:He; simpl.
    destruct (PQresultStatus res) eqn:Hst; simpl;
      do 2 eexists; (split; [reflexivity|]); simpl;
      (split; [repeat split|]);
      (split; [split; [try discriminate; intros _; exists c, w, res, w';
                       rewrite Hst; auto
                      |try reflexivity;
                       intros (c0 & w0 & res0 & w0' & [= <- <-] & He' & Hok);
                       rewrite He in He'; injection He' as <- <-;
                       rewrite Hst in Hok; destruct Hok; discriminate]|]);
      (split; [try reflexivity; discriminate
              |try discriminate; intros _; eexists; reflexivity]).
  - do 2 eexists. split; [reflexivity|]. simpl.
    split; [repeat split|]. split.
    + split; [discriminate|]. intros (c0 & w0 & res0 & w0' & [=] & _).
    + split; [discriminate|]. intros _. eexists. reflexivity.
Qed.

(** X19: [changeToAsync] announces the change in the log and sends the
    ALTER SYSTEM command over the process's own connection string.  If
    the command fails, it leaves through the "failed to change
    replication mode" ERROR and the postmaster is not signalled; if it
    succeeds, the postmaster is signalled, and the call returns when
    [kill] gives 0 and leaves through the "failed to send SIGHUP" ERROR
    otherwise.  In every case the control block and the lock are as
    before. *)
Theorem changeToAsync_outcome s conn ok s1 :
  pgha_my_conninfo s = Some conn ->
  execSQL conn "ALTER SYSTEM SET synchronous_standby_names TO ''"
          (add_log log_changes_replication_mode s) = Returned ok s1 ->
  (ok = false ->
   changeToAsync s = Raised failed_to_change_replication_mode s1) /\
  (ok = true ->
   changeToAsync s =
     let '(r, w) := kill_postmaster_SIGHUP (world s1) in
     if r =? 0 then Returned tt (set_world w s1)
     else Raised failed_to_send_SIGHUP_to_postmaster (set_world w s1)) /\
  PgHaCtl (final_state (changeToAsync s)) = PgHaCtl s /\
  held_lwlocks (final_state (changeToAsync s)) = held_lwlocks s.
Proof.
  intros Hmy Hexec.
  destruct (execSQL_returns conn
              "ALTER SYSTEM SET synchronous_standby_names TO ''"
              (add_log log_changes_replication_mode s))
    as (r & s' & Hr & U).
  rewrite Hexec in Hr. injection Hr as <- <-.
  destruct U as (U1 & U2 & _). simpl in U1, U2.
  assert (Hrun : changeToAsync s =
                 if ok
                 then let '(r, w) := kill_postmaster_SIGHUP (world s1) in
                      if r =? 0 then Returned tt (set_world w s1)
                      else Raised failed_to_send_SIGHUP_to_postmaster
                                  (set_world w s1)
                 else Raised failed_to_change_replication_mode s1).
  { unfold changeToAsync, bind, ereport_LOG, gets. simpl.
    rewrite Hmy, Hexec. destruct ok; simpl; [|reflexivity].
    unfold call. destruct (kill_postmaster_SIGHUP (world s1)) as [r w].
    simpl. destruct (r =? 0); reflexivity. }
  split; [intros ->; exact Hrun|]. split; [intros ->; exact Hrun|].
  rewrite Hrun. destruct ok; simpl; [|auto].
  destruct (kill_postmaster_SIGHUP (world s1)) as [r w].
  destruct (r =? 0); simpl; auto.
Qed.

Lemma for_loop_nothing_to_ping count : forall from s,
  (from + count <= length (nodes (PgHaCtl s)))%nat ->
  (forall nd, nd ∈ nodes (PgHaCtl s) -> pinged (am_master s) nd = false) ->
  for_loop heartbeat_slot from count s = Returned tt s.
Proof.
  induction count as [|k IH]; intros from s Hlen Hnone; [reflexivity|].
  destruct (lookup_lt_is_Some_2 (nodes (PgHaCtl s)) from) as [nd Hnd];
    [lia|].
  simpl. unfold bind at 1. unfold heartbeat_slot, bind, gets.
  rewrite Hnd. rewrite (Hnone nd) by (by eapply list_elem_of_lookup_2).
  simpl. apply IH; [lia|exact Hnone].
Qed.

(** X20: a sweep with nobody to ping is a no-op.  When every slot is
    free, or the process's own, or (in a standby) a standby, [doHeartbeat]
    entered with the lock free returns in exactly the state it was called
    in: no counter is touched, no server is contacted, nothing is
    logged. *)
Theorem doHeartbeat_nothing_to_ping s :
  held_lwlocks s = [] ->
  (forall nd, nd ∈ nodes (PgHaCtl s) ->
     in_use nd = false \/ myself nd = true \/
     (am_master s = false /\ type nd = "s"%char)) ->
  doHeartbeat s = Returned tt s.
Proof.
  intros Hfree Hnone.
  assert (Hp : forall nd, nd ∈ nodes (PgHaCtl s) ->
                          pinged (am_master s) nd = false).
  { intros nd Hin. destruct (pinged (am_master s) nd) eqn:E; [|reflexivity].
    apply pinged_spec in E as (Hu & Hself & Hrole).
    destruct (Hnone nd Hin) as [H|[H|[H1 H2]]]; [congruence|congruence|].
    destruct Hrole; congruence. }
  unfold doHeartbeat, bind, LWLockAcquire, gets. rewrite Hfree. simpl.
  unfold pgha_max_nodes. rewrite Nat2Z.id.
  rewrite for_loop_nothing_to_ping; [|simpl; lia|exact Hp].
  unfold LWLockRelease. simpl. f_equal.
  destruct s; simpl in *; subst; reflexivity.
Qed.

End ProbeFacts.

(** ** The further theorems at concrete inputs *)

Section MoreInstances.

Import Demo.

Ltac slots :=
  let H := fresh in
  intros ? H; simpl in H;
  repeat (apply elem_of_cons in H as [->|H]; [try discriminate|]);
  try (inversion H; fail).

Lemma addNode_registers_witness :
  exists s',
    addNode "b" "host=b" false false one_node = Returned true s' /\
    get_hanode_count s' = Returned 2 s'.
Proof.
  destruct (addNode_registers one_node "b" "host=b" false false
              1%nat zero_node)
    as (s' & Hrun & _ & _ & _ & Hcount & _);
    [reflexivity|reflexivity|slots; discriminate
    |reflexivity|reflexivity|reflexivity|].
  exists s'. split; [exact Hrun|exact Hcount].
Defined.

Lemma compact_two_free : compact (PgHaCtl two_free).
Proof.
  split; [vm_compute; split; discriminate|].
  intros [|[|[|i]]] nd; simpl; intros [= <-]; simpl; split;
    first [reflexivity|discriminate|lia].
Qed.

Lemma insert_only_count_exact_witness :
  in_bounds (run_ops [insert "b"; insert "a"; insert "c"] two_free) /\
  n_nodes (PgHaCtl (final_state
             (run_ops [insert "b"; insert "a"; insert "c"] two_free)))
  = in_use_count (PgHaCtl (final_state
             (run_ops [insert "b"; insert "a"; insert "c"] two_free))).
Proof.
  split; [vm_compute; exact I|].
  apply (insert_only_count_exact
           [insert "b"; insert "a"; insert "c"] two_free);
    [reflexivity|reflexivity|apply compact_two_free|vm_compute; exact I].
Defined.

Lemma delNode_removes_named_witness :
  exists s',
    delNode "a" two_free = Returned true s' /\
    get_hanode_count s' = Returned 0 s' /\
    in_use_count (PgHaCtl s') = 0.
Proof.
  destruct (delNode_removes_named two_free "a" 1%nat zero_node)
    as (s' & Hrun & _ & Hcount & Huse & _);
    [reflexivity|reflexivity|apply list_elem_of_here|reflexivity|].
  exists s'. split; [exact Hrun|]. split; [exact Hcount|exact Huse].
Defined.

Lemma counter_never_undercounts_witness :
  in_bounds (run_ops [insert "b"; OpRemove "a"; insert "c"; OpRemove "x"]
                     two_free) /\
  in_use_count (PgHaCtl (final_state
     (run_ops [insert "b"; OpRemove "a"; insert "c"; OpRemove "x"]
              two_free)))
  <= n_nodes (PgHaCtl (final_state
     (run_ops [insert "b"; OpRemove "a"; insert "c"; OpRemove "x"]
              two_free))).
Proof.
  split; [vm_compute; exact I|].
  apply (counter_never_undercounts
           [insert "b"; OpRemove "a"; insert "c"; OpRemove "x"] two_free);
    [reflexivity|vm_compute; discriminate|vm_compute; exact I].
Defined.

Lemma delNode_full_faults_witness :
  slot_at (PgHaCtl full_two) (n_nodes (PgHaCtl full_two)) = None /\
  exists s', delNode "a" full_two = Fault s' /\
             PgHaCtl s' = PgHaCtl full_two.
Proof.
  apply (delNode_full_faults full_two "a");
    [reflexivity|apply list_elem_of_here|reflexivity].
Defined.

Lemma insert_remove_round_trip_witness :
  exists s1 s2,
    addNode "b" "host=b" false false two_free = Returned true s1 /\
    delNode "b" s1 = Returned true s2 /\
    n_nodes (PgHaCtl s2) = 1.
Proof.
  destruct (insert_remove_round_trip two_free "b" "host=b" false false
              1%nat zero_node 2%nat zero_node)
    as (s1 & s2 & H1 & H2 & _ & Hn & _);
    [reflexivity|reflexivity|slots; discriminate|reflexivity|reflexivity
    |reflexivity|reflexivity|reflexivity|reflexivity|].
  exists s1, s2. split; [exact H1|]. split; [exact H2|exact Hn].
Defined.

Lemma debug_show_lists_members_witness :
  exists s' lines,
    debug_show two_free = Returned tt s' /\
    server_log s' = server_log two_free ++ lines /\
    Z.of_nat (length lines) = 1.
Proof.
  destruct (debug_show_lists_members two_free eq_refl)
    as (s' & lines & Hrun & _ & _ & Hlog & Hlen & _).
  exists s', lines. split; [exact Hrun|]. split; [exact Hlog|exact Hlen].
Defined.

Lemma join_node_rejects_context_witness :
  join_node scalar_call "b" "host=b" one_node
  = Raised set_valued_function_in_wrong_context one_node.
Proof.
  exact (join_node_rejects_context scalar_call "b" "host=b" one_node
           eq_refl eq_refl).
Defined.

Lemma join_node_rejoin_blocks_witness :
  join_node materialize_call "a" "host=a" one_node
  = Blocked (set_held_lwlocks [LW_EXCLUSIVE] one_node).
Proof.
  apply (join_node_rejoin_blocks materialize_call "a" "host=a" one_node);
    [reflexivity|reflexivity|reflexivity|apply list_elem_of_here].
Defined.

Lemma PgHaMain_refuses_bad_parameters_witness :
  PgHaMain 3 unconfigured
  = Raised node_name_must_be_specified unconfigured.
Proof.
  apply (PgHaMain_refuses_bad_parameters 3 unconfigured).
  right. right. reflexivity.
Defined.

Lemma PgHaMain_standby_registers_and_exits_witness :
  exists s',
    PgHaMain 3 (standby one_node) = Returned (Some true) s' /\
    nodes (PgHaCtl s') !! 1%nat =
      Some (mkNode "n0" "c0" "s" true true false false 0).
Proof.
  destruct (PgHaMain_standby_registers_and_exits 3 (standby one_node)
              "n0" "c0" 1%nat zero_node)
    as (s' & Hrun & Hnode & _);
    [reflexivity|reflexivity|reflexivity|discriminate|reflexivity
    |discriminate|reflexivity|reflexivity|reflexivity
    |slots; discriminate|reflexivity|].
  exists s'. split; [exact Hrun|exact Hnode].
Defined.

Lemma master_loop_stops_on_sigterm_witness :
  exists s',
    PgHaMasterLoop 1 stopping = Returned (Some true) s' /\
    steps s' = [StShutdownCheck].
Proof.
  destruct (master_loop_stops_on_sigterm 0 stopping eq_refl)
    as (s' & Hrun & Hsteps & _).
  exists s'. split; [exact Hrun|exact Hsteps].
Defined.

Lemma master_loop_postmaster_death_witness :
  exists s',
    PgHaMasterLoop 1 one_node = Returned (Some false) s' /\
    steps s' = [StShutdownCheck].
Proof.
  destruct (master_loop_postmaster_death 0 one_node (false, false) []
              (mkWake true false false) [])
    as (s' & Hrun & Hsteps & _);
    [reflexivity|reflexivity|reflexivity|reflexivity|reflexivity|].
  exists s'. split; [exact Hrun|exact Hsteps].
Defined.

Lemma changeToAsync_outcome_witness :
  exists s', changeToAsync one_node = Returned tt s'.
Proof.
  destruct (execSQL_returns
              "c0" "ALTER SYSTEM SET synchronous_standby_names TO ''"
              (add_log log_changes_replication_mode one_node))
    as (ok & s1 & Hexec & _).
  assert (Hok : ok = true)
    by (vm_compute in Hexec; injection Hexec as <- _; reflexivity).
  destruct (changeToAsync_outcome one_node "c0" ok s1 eq_refl Hexec)
    as (_ & Hrun & _).
  rewrite (Hrun Hok). simpl. eexists. reflexivity.
Defined.

Lemma doHeartbeat_nothing_to_ping_witness :
  doHeartbeat only_self = Returned tt only_self.
Proof.
  apply (doHeartbeat_nothing_to_ping only_self); [reflexivity|].
  slots; [right; left; reflexivity|left; reflexivity].
Defined.

End MoreInstances.
